(** * SerperClient: event classification and extraction pipeline

    A shallow embedding of [SerperClient.js] (the Serper.dev search client):
    the heuristic event filter, the date / venue / ticket-URL extractors, the
    confidence scorer, the normalizer and the [searchEvents] orchestrator.

    Strings are sequences of 7-bit ASCII code units ([Stdlib.Strings.String]);
    on that alphabet [toLowerCase], [trim], [includes] and the regular
    expression semantics below coincide with ECMAScript's.  Numbers that the
    source computes with ([confidence]) are IEEE-754 binary64 values, modelled
    by Rocq's primitive floats. *)

From Stdlib Require Import Bool Arith List Ascii String ZArith Lia Floats.
From Stdlib Require Import DecimalString.
Import ListNotations.

Local Open Scope string_scope.
Local Open Scope list_scope.
Local Open Scope nat_scope.

(* ------------------------------------------------------------------------- *)
(** ** ECMAScript string primitives used by the client *)

Module JSString.

Definition code (c : ascii) : nat := nat_of_ascii c.

Definition isUpperAlpha (c : ascii) : bool := (65 <=? code c) && (code c <=? 90).
Definition isLowerAlpha (c : ascii) : bool := (97 <=? code c) && (code c <=? 122).
Definition isDigit (c : ascii) : bool := (48 <=? code c) && (code c <=? 57).

(** WhiteSpace and LineTerminator code units below 128: TAB, LF, VT, FF, CR, SP. *)
Definition isWhiteSpace (c : ascii) : bool :=
  ((9 <=? code c) && (code c <=? 13)) || (code c =? 32).

(** The characters of [\w]: letters, digits and the underscore. *)
Definition isWordChar (c : ascii) : bool :=
  isUpperAlpha c || isLowerAlpha c || isDigit c || (code c =? 95).

Definition toLowerChar (c : ascii) : ascii :=
  if isUpperAlpha c then ascii_of_nat (code c + 32) else c.

Definition toUpperChar (c : ascii) : ascii :=
  if isLowerAlpha c then ascii_of_nat (code c - 32) else c.

Fixpoint mapChars (f : ascii -> ascii) (s : string) : string :=
  match s with
  | EmptyString => EmptyString
  | String c s' => String (f c) (mapChars f s')
  end.

(** [s.toLowerCase()] *)
Definition toLowerCase (s : string) : string := mapChars toLowerChar s.

(** [s.includes(sub)] *)
Fixpoint includes (s sub : string) : bool :=
  String.prefix sub s ||
  match s with
  | EmptyString => false
  | String _ s' => includes s' sub
  end.

Fixpoint trimStart (s : string) : string :=
  match s with
  | EmptyString => EmptyString
  | String c s' => if isWhiteSpace c then trimStart s' else s
  end.

Fixpoint trimEnd (s : string) : string :=
  match s with
  | EmptyString => EmptyString
  | String c s' =>
      match trimEnd s' with
      | EmptyString => if isWhiteSpace c then EmptyString else String c EmptyString
      | t => String c t
      end
  end.

(** [s.trim()] *)
Definition trim (s : string) : string := trimEnd (trimStart s).

(** Truthiness of a string-valued property that may be absent: [undefined]
    and the empty string ([EmptyString]) are falsy. *)
Definition truthy (o : option string) : bool :=
  match o with
  | Some s => negb (String.eqb s EmptyString)
  | None => false
  end.

(** [a || b] on such values, when [b] is a string. *)
Definition orElse (o : option string) (d : string) : string :=
  match o with
  | Some s => if String.eqb s EmptyString then d else s
  | None => d
  end.

(** [a || b] when [b] may itself be absent. *)
Definition orElseOpt (o p : option string) : option string :=
  if truthy o then o else p.

(** [String(n)] for a non-negative integer. *)
Definition ofN (n : N) : string := NilEmpty.string_of_uint (N.to_uint n).

End JSString.

(* ------------------------------------------------------------------------- *)
(** ** Regular expressions: syntax, source text and backtracking semantics *)

Module RegExp.
Import JSString.

Inductive ClassAtom : Type :=
| CaChar (c : ascii)
| CaRange (lo hi : ascii)
| CaDigit
| CaSpace.

Inductive Regex : Type :=
| REmpty
| RChar (c : ascii)
| REsc (c : ascii)
| RDigit
| RSpace
| RWordBoundary
| RClass (negated : bool) (atoms : list ClassAtom)
| RSeq (r1 r2 : Regex)
| RAlt (r1 r2 : Regex)
| RGroup (idx : nat) (r : Regex)
| RNonCap (r : Regex)
| RQuant (r : Regex) (min : nat) (max : option nat).

(** *** Concrete syntax *)

Definition str1 (c : ascii) : string := String c EmptyString.

Definition showNat (n : nat) : string := ofN (N.of_nat n).

Definition showAtom (a : ClassAtom) : string :=
  match a with
  | CaChar c => str1 c
  | CaRange lo hi => str1 lo ++ "-" ++ str1 hi
  | CaDigit => "\d"
  | CaSpace => "\s"
  end.

Definition showQuant (min : nat) (max : option nat) : string :=
  match min, max with
  | 0, Some 1 => "?"
  | 0, None => "*"
  | 1, None => "+"
  | m, None => "{" ++ showNat m ++ ",}"
  | m, Some n => if m =? n then "{" ++ showNat m ++ "}"
                 else "{" ++ showNat m ++ "," ++ showNat n ++ "}"
  end.

Fixpoint show (r : Regex) : string :=
  match r with
  | REmpty => EmptyString
  | RChar c => str1 c
  | REsc c => "\" ++ str1 c
  | RDigit => "\d"
  | RSpace => "\s"
  | RWordBoundary => "\b"
  | RClass neg atoms =>
      "[" ++ (if neg then "^" else EmptyString) ++ String.concat EmptyString (map showAtom atoms) ++ "]"
  | RSeq r1 r2 => show r1 ++ show r2
  | RAlt r1 r2 => show r1 ++ "|" ++ show r2
  | RGroup _ r => "(" ++ show r ++ ")"
  | RNonCap r => "(?:" ++ show r ++ ")"
  | RQuant r min max => show r ++ showQuant min max
  end.

(** A term prints unambiguously when a quantifier is applied to an atom and
    an alternation sits directly under a group (or at top level). *)
Definition isAtom (r : Regex) : bool :=
  match r with
  | RChar _ | REsc _ | RDigit | RSpace | RClass _ _ | RGroup _ _ | RNonCap _ => true
  | _ => false
  end.

Definition isAlt (r : Regex) : bool :=
  match r with RAlt _ _ => true | _ => false end.

Fixpoint wellFormed (r : Regex) : bool :=
  match r with
  | RSeq r1 r2 => negb (isAlt r1) && negb (isAlt r2) && wellFormed r1 && wellFormed r2
  | RAlt r1 r2 => wellFormed r1 && wellFormed r2
  | RGroup _ r | RNonCap r => wellFormed r
  | RQuant r _ _ => isAtom r && wellFormed r
  | _ => true
  end.

(** Capturing groups in left-parenthesis order. *)
Fixpoint groups (r : Regex) : list nat :=
  match r with
  | RSeq r1 r2 | RAlt r1 r2 => groups r1 ++ groups r2
  | RGroup i r => i :: groups r
  | RNonCap r | RQuant r _ _ => groups r
  | _ => []
  end.

(** The groups carry the numbers 1, 2, ... in that order. *)
Definition numbered (r : Regex) : bool :=
  if list_eq_dec Nat.eq_dec (groups r) (seq 1 (List.length (groups r)))
  then true else false.

(** Builders for the shapes the client's literals use. *)
Fixpoint lit (s : string) : Regex :=
  match s with
  | EmptyString => REmpty
  | String c EmptyString => RChar c
  | String c s' => RSeq (RChar c) (lit s')
  end.

Fixpoint seqs (rs : list Regex) : Regex :=
  match rs with
  | [] => REmpty
  | [r] => r
  | r :: rs' => RSeq r (seqs rs')
  end.

Fixpoint alts (rs : list Regex) : Regex :=
  match rs with
  | [] => REmpty
  | [r] => r
  | r :: rs' => RAlt r (alts rs')
  end.

Definition words (ws : list string) : Regex := alts (map lit ws).

Definition opt (r : Regex) : Regex := RQuant r 0 (Some 1).
Definition star (r : Regex) : Regex := RQuant r 0 None.
Definition plus (r : Regex) : Regex := RQuant r 1 None.

(** A regular expression literal: its pattern and the flags [i] and [g]. *)
Record Pattern : Type := mkPattern
  { body : Regex;
    ignoreCase : bool;
    global : bool }.

(** [pattern.source] *)
Definition source (p : Pattern) : string := show (body p).

(** *** Matching (ECMAScript 22.2.2, backtracking with continuations) *)

Record MatchState : Type := mkState
  { endIndex : nat;
    captures : list (option (nat * nat)) }.

Definition Continuation : Type := MatchState -> option MatchState.
Definition Matcher : Type := MatchState -> Continuation -> option MatchState.

Fixpoint setNth {A : Type} (n : nat) (v : A) (l : list A) : list A :=
  match l, n with
  | [], _ => []
  | _ :: t, 0 => v :: t
  | h :: t, S n' => h :: setNth n' v t
  end.

Definition setCapture (i : nat) (v : option (nat * nat)) (x : MatchState) : MatchState :=
  mkState (endIndex x) (setNth (i - 1) v (captures x)).

Definition clearCaptures (idxs : list nat) (x : MatchState) : MatchState :=
  fold_left (fun y i => setCapture i None y) idxs x.

Section Matching.

Variable input : list ascii.
Variable icase : bool.

(** Canonicalize: with the [i] flag characters are compared upper-cased. *)
Definition canonicalize (c : ascii) : ascii :=
  if icase then toUpperChar c else c.

Definition atomHas (a : ClassAtom) (c : ascii) : bool :=
  match a with
  | CaChar d => Ascii.eqb d c
  | CaRange lo hi => (code lo <=? code c) && (code c <=? code hi)
  | CaDigit => isDigit c
  | CaSpace => isWhiteSpace c
  end.

Definition setHas (atoms : list ClassAtom) (c : ascii) : bool :=
  existsb (fun a => atomHas a c) atoms.

(** CharacterSetMatcher: some member [a] of the set has
    [canonicalize a = canonicalize c]; on ASCII the candidates for [a] are
    [c] and its two case variants. *)
Definition setMatches (atoms : list ClassAtom) (c : ascii) : bool :=
  if icase
  then setHas atoms c || setHas atoms (toUpperChar c) || setHas atoms (toLowerChar c)
  else setHas atoms c.

Definition charMatcher (test : ascii -> bool) : Matcher :=
  fun x c =>
    match nth_error input (endIndex x) with
    | Some ch => if test ch then c (mkState (S (endIndex x)) (captures x)) else None
    | None => None
    end.

Definition isWordCharAt (e : nat) (offsetBack : bool) : bool :=
  if offsetBack
  then match e with
       | 0 => false
       | S e' => match nth_error input e' with Some ch => isWordChar ch | None => false end
       end
  else match nth_error input e with Some ch => isWordChar ch | None => false end.

(** RepeatMatcher.  Every nested call either consumes one of the [min]
    mandatory iterations or has moved [endIndex] forward, so
    [min + length input + 1] units of [fuel] are never used up. *)
Fixpoint repeatMatcher (fuel : nat) (m : Matcher) (parens : list nat)
    (min : nat) (max : option nat) (x : MatchState) (c : Continuation)
    : option MatchState :=
  match fuel with
  | 0 => None
  | S fuel' =>
      match max with
      | Some 0 => c x
      | _ =>
          let d : Continuation := fun y =>
            if (min =? 0) && (endIndex y =? endIndex x) then None
            else repeatMatcher fuel' m parens (pred min) (option_map pred max) y c in
          let xr := clearCaptures parens x in
          if negb (min =? 0) then m xr d
          else match m xr d with
               | Some z => Some z
               | None => c x
               end
      end
  end.

Fixpoint compile (r : Regex) : Matcher :=
  match r with
  | REmpty => fun x c => c x
  | RChar ch | REsc ch =>
      charMatcher (fun a => Ascii.eqb (canonicalize a) (canonicalize ch))
  | RDigit => charMatcher (setMatches [CaDigit])
  | RSpace => charMatcher (setMatches [CaSpace])
  | RWordBoundary => fun x c =>
      if xorb (isWordCharAt (endIndex x) true) (isWordCharAt (endIndex x) false)
      then c x else None
  | RClass neg atoms => charMatcher (fun a => xorb neg (setMatches atoms a))
  | RSeq r1 r2 => fun x c => compile r1 x (fun y => compile r2 y c)
  | RAlt r1 r2 => fun x c =>
      match compile r1 x c with
      | Some z => Some z
      | None => compile r2 x c
      end
  | RGroup i r' => fun x c =>
      compile r' x (fun y => c (setCapture i (Some (endIndex x, endIndex y)) y))
  | RNonCap r' => compile r'
  | RQuant r' min max => fun x c =>
      repeatMatcher (min + List.length input + 2) (compile r') (groups r') min max x c
  end.

(** [y] is a state a matcher may hand to its continuation when started in
    [x]: the end index has not moved back nor left the input, and the capture
    array has kept its length. *)
Definition Reaches (x y : MatchState) : Prop :=
  endIndex x <= endIndex y /\
  (endIndex x <= List.length input -> endIndex y <= List.length input) /\
  List.length (captures y) = List.length (captures x).

(** A matcher succeeds only through its continuation, on such a state. *)
Definition Forward (m : Matcher) : Prop :=
  forall x c z, m x c = Some z -> exists y, c y = Some z /\ Reaches x y.

(** The same, with at least one character consumed. *)
Definition Progress (m : Matcher) : Prop :=
  forall x c z, m x c = Some z ->
    exists y, c y = Some z /\ Reaches x y /\
              endIndex x < endIndex y /\ endIndex y <= List.length input.

(** The outcome of a matcher depends on its continuation only at the states
    it may hand over. *)
Definition Local (m : Matcher) : Prop :=
  forall x c c', (forall y, Reaches x y -> c y = c' y) -> m x c = m x c'.

(** Group [k] holds a non-empty span of the input. *)
Definition Captured (k : nat) (y : MatchState) : Prop :=
  exists b e, nth_error (captures y) (k - 1) = Some (Some (b, e)) /\
              b < e /\ e <= List.length input.

(** The loop of RegExpBuiltinExec: try each start index from [i] upwards. *)
Fixpoint scanFrom (r : Regex) (ncap : nat) (n i : nat) : option (nat * MatchState) :=
  match compile r (mkState i (repeat None ncap)) (fun y => Some y) with
  | Some y => Some (i, y)
  | None =>
      match n with
      | 0 => None
      | S n' => scanFrom r ncap n' (S i)
      end
  end.

End Matching.

(** The array returned by [exec]: where the match starts and ends, and the
    text of each group ([None] for a group that did not take part). *)
Record MatchResult : Type := mkResult
  { index : nat;
    lastIndex : nat;
    matched : string;
    groupTexts : list (option string) }.

Definition slice (s : string) (from to : nat) : string :=
  String.substring from (to - from) s.

(** [regexp.exec(s)] started at [lastIndex = from]. *)
Definition execFrom (p : Pattern) (s : string) (from : nat) : option MatchResult :=
  let input := list_ascii_of_string s in
  let len := List.length input in
  if len <? from then None
  else
    match scanFrom input (ignoreCase p) (body p)
                   (List.length (groups (body p))) (len - from) from with
    | Some (i, y) =>
        Some (mkResult i (endIndex y) (slice s i (endIndex y))
                (map (option_map (fun be => slice s (fst be) (snd be))) (captures y)))
    | None => None
    end.

(** [s.match(p)] for a pattern without the [g] flag, and [p.exec(s)] on a
    fresh literal. *)
Definition exec (p : Pattern) (s : string) : option MatchResult := execFrom p s 0.

(** [p.test(s)] on a fresh literal. *)
Definition test (p : Pattern) (s : string) : bool :=
  match exec p s with Some _ => true | None => false end.

(** [m[k]] for [k >= 1]. *)
Definition group (m : MatchResult) (k : nat) : option string :=
  match nth_error (groupTexts m) (k - 1) with
  | Some g => g
  | None => None
  end.

(** [s.match(p)] for a pattern with the [g] flag: every match in turn, each
    search resuming where the previous match ended (one further on after an
    empty match); [null] when there is none is the empty list here. *)
Fixpoint matchAllFrom (fuel : nat) (p : Pattern) (s : string) (from : nat) : list string :=
  match fuel with
  | 0 => []
  | S fuel' =>
      match execFrom p s from with
      | None => []
      | Some m =>
          let next := if lastIndex m =? index m then S (lastIndex m) else lastIndex m in
          matched m :: matchAllFrom fuel' p s next
      end
  end.

Definition matchAll (p : Pattern) (s : string) : list string :=
  matchAllFrom (S (String.length s)) p s 0.

(** [s.replace(p, repl)] for a pattern with the [g] flag and a replacement
    text without [$]: the text between matches is kept, each match becomes
    [repl]. *)
Fixpoint replaceFrom (fuel : nat) (p : Pattern) (s repl : string)
    (from srcPos : nat) : string :=
  match fuel with
  | 0 => slice s srcPos (String.length s)
  | S fuel' =>
      match execFrom p s from with
      | None => slice s srcPos (String.length s)
      | Some m =>
          let next := if lastIndex m =? index m then S (lastIndex m) else lastIndex m in
          (slice s srcPos (index m) ++ repl ++
           replaceFrom fuel' p s repl next (lastIndex m))%string
      end
  end.

Definition replaceAll (p : Pattern) (s repl : string) : string :=
  replaceFrom (S (String.length s)) p s repl 0 0.

End RegExp.

(* ------------------------------------------------------------------------- *)
(** ** The client *)

Module SerperClient.
Import JSString RegExp.

(** One item of the provider's [organic] or [peopleAlsoAsk] arrays.  Every
    property may be absent. *)
Record RawResult : Type := mkRaw
  { title : option string;
    snippet : option string;
    link : option string;
    question : option string }.

(** *** Pattern tables *)

Definition monthNames : list string :=
  ["january"; "february"; "march"; "april"; "may"; "june"; "july"; "august";
   "september"; "october"; "november"; "december"].

Definition monthAbbrevs : list string :=
  ["jan"; "feb"; "mar"; "apr"; "may"; "jun"; "jul"; "aug"; "sep"; "oct"; "nov"; "dec"].

Definition d12 : Regex := RQuant RDigit 1 (Some 2).
Definition slash : Regex := REsc "/".

Definition lettersAndSpace : list ClassAtom :=
  [CaRange "a" "z"; CaRange "A" "Z"; CaSpace].

Definition venueChars : list ClassAtom :=
  [CaRange "a" "z"; CaRange "A" "Z"; CaSpace; CaChar "&"; CaChar "'"; CaChar "-"].

Definition capital : Regex := RClass false [CaRange "A" "Z"].

Module ContainsDate.
Definition monthDay : Pattern :=
  mkPattern (seqs [RWordBoundary; RGroup 1 (words monthNames); plus RSpace; d12])
            true false.
Definition slashed : Pattern :=
  mkPattern (seqs [RWordBoundary; d12; slash; d12; slash; RQuant RDigit 2 (Some 4);
                   RWordBoundary])
            false false.
Definition weekday : Pattern :=
  mkPattern (seqs [RWordBoundary;
                   RGroup 1 (words ["mon"; "tue"; "wed"; "thu"; "fri"; "sat"; "sun"]);
                   star (RClass false [CaRange "a" "z"]);
                   star RSpace; opt (RChar ","); star RSpace;
                   RGroup 2 (words monthAbbrevs)])
            true false.
Definition relative : Pattern :=
  mkPattern (seqs [RWordBoundary;
                   RGroup 1 (alts [lit "today"; lit "tomorrow"; lit "tonight";
                                   seqs [lit "this"; plus RSpace;
                                         RGroup 2 (words ["week"; "weekend"; "month"])]]);
                   RWordBoundary])
            true false.
Definition ordinal : Pattern :=
  mkPattern (seqs [RWordBoundary; d12; RGroup 1 (words ["st"; "nd"; "rd"; "th"]);
                   plus RSpace; opt (RGroup 2 (seqs [lit "of"; plus RSpace]));
                   RGroup 3 (words monthNames)])
            true false.
Definition datePatterns : list Pattern :=
  [monthDay; slashed; weekday; relative; ordinal].
End ContainsDate.

Module ContainsVenue.
Definition atPlace : Pattern :=
  mkPattern (seqs [RWordBoundary; RGroup 1 (alts [lit "at"; lit "@"]); plus RSpace;
                   capital; plus (RClass false lettersAndSpace); RWordBoundary])
            false false.
Definition venueWord : Pattern :=
  mkPattern (seqs [RWordBoundary;
                   RGroup 1 (words ["venue"; "location"; "address"; "hall"; "center";
                                    "theatre"; "theater"; "auditorium"; "stadium";
                                    "arena"]);
                   RWordBoundary])
            true false.
Definition streetAddress : Pattern :=
  mkPattern (seqs [RWordBoundary; plus RDigit; plus RSpace; capital;
                   plus (RClass false lettersAndSpace); plus RSpace;
                   RGroup 1 (words ["street"; "st"; "avenue"; "ave"; "road"; "rd";
                                    "boulevard"; "blvd"; "drive"; "dr"]);
                   RWordBoundary])
            true false.
Definition venuePatterns : list Pattern := [atPlace; venueWord; streetAddress].
End ContainsVenue.

Module ExtractDate.
Definition monthDayYear : Pattern :=
  mkPattern (seqs [RWordBoundary; RGroup 1 (words monthNames); plus RSpace;
                   RGroup 2 d12; opt (RChar ","); star RSpace;
                   opt (RGroup 3 (RQuant RDigit 4 (Some 4)))])
            true false.
Definition slashed : Pattern :=
  mkPattern (seqs [RWordBoundary; RGroup 1 d12; slash; RGroup 2 d12; slash;
                   RGroup 3 (RQuant RDigit 2 (Some 4)); RWordBoundary])
            false false.
Definition ordinal : Pattern :=
  mkPattern (seqs [RWordBoundary; RGroup 1 d12;
                   RGroup 2 (words ["st"; "nd"; "rd"; "th"]); plus RSpace;
                   RGroup 3 (words monthNames)])
            true false.
Definition datePatterns : list Pattern := [monthDayYear; slashed; ordinal].
End ExtractDate.

Module ExtractVenue.
Definition venueNouns : list string :=
  ["Center"; "Centre"; "Hall"; "Theatre"; "Theater"; "Auditorium"; "Stadium"; "Arena"].
Definition moreVenueNouns : list string :=
  ["Club"; "Bar"; "Restaurant"; "Hotel"; "Museum"; "Gallery"; "Park"].

Definition atVenue : Pattern :=
  mkPattern (seqs [RWordBoundary; RNonCap (alts [lit "at"; lit "@"]); plus RSpace;
                   RGroup 1 (seqs [capital; plus (RClass false venueChars);
                                   RNonCap (words (venueNouns ++ moreVenueNouns))]);
                   RWordBoundary])
            true false.
Definition bareVenue : Pattern :=
  mkPattern (seqs [RWordBoundary;
                   RGroup 1 (seqs [capital; plus (RClass false venueChars);
                                   RNonCap (words venueNouns)]);
                   RWordBoundary])
            true false.
Definition labelled : Pattern :=
  mkPattern (seqs [RWordBoundary; RNonCap (words ["venue"; "location"]); RChar ":";
                   star RSpace;
                   RGroup 1 (seqs [capital; plus (RClass false venueChars)])])
            true false.
Definition venuePatterns : list Pattern := [atVenue; bareVenue; labelled].
End ExtractVenue.

(** [/https?:\/\/[^\s]+/g] *)
Definition urlPattern : Pattern :=
  mkPattern (seqs [lit "http"; opt (RChar "s"); RChar ":"; slash; slash;
                   plus (RClass true [CaSpace])])
            false true.

(** [/[^a-zA-Z0-9]/g] *)
Definition nonAlnum : Pattern :=
  mkPattern (RClass true [CaRange "a" "z"; CaRange "A" "Z"; CaRange "0" "9"]) false true.

Definition allPatterns : list Pattern :=
  ContainsDate.datePatterns ++ ContainsVenue.venuePatterns ++
  ExtractDate.datePatterns ++ ExtractVenue.venuePatterns ++ [urlPattern; nonAlnum].

(** *** filterEventResults, containsDatePattern, containsVenuePattern *)

Definition eventKeywords : list string :=
  ["event"; "festival"; "concert"; "conference"; "workshop"; "meetup";
   "seminar"; "exhibition"; "show"; "performance"; "gathering"; "summit";
   "fair"; "expo"; "convention"; "symposium"; "webinar"; "class";
   "eventbrite"; "meetup.com"; "facebook.com/events"; "tickets";
   "registration"; "rsvp"; "calendar"].

Definition containsDatePattern (text : string) : bool :=
  existsb (fun pattern => test pattern text) ContainsDate.datePatterns.

Definition containsVenuePattern (text : string) : bool :=
  existsb (fun pattern => test pattern text) ContainsVenue.venuePatterns.

(** The [searchText] of the filter callback. *)
Definition searchText (result : RawResult) : string :=
  let title := toLowerCase (orElse (title result) EmptyString) in
  let snippet := toLowerCase (orElse (snippet result) EmptyString) in
  let link := toLowerCase (orElse (link result) EmptyString) in
  let question := toLowerCase (orElse (question result) EmptyString) in
  (title ++ " " ++ snippet ++ " " ++ link ++ " " ++ question)%string.

(** The filter callback. *)
Definition isEventLike (result : RawResult) : bool :=
  let searchText := searchText result in
  existsb (fun keyword => includes searchText keyword) eventKeywords ||
  containsDatePattern searchText ||
  containsVenuePattern searchText.

Definition filterEventResults (results : list RawResult) : list RawResult :=
  filter isEventLike results.

(** *** extractDateInfo *)

(** What the runtime's [Date] gives the client: the clock read by
    [new Date()], and [new Date(str)] followed by [isNaN(getTime())] and
    [toISOString()].  Parsing a free-form date string is left to the host by
    the language, so it is a parameter here: [None] is an invalid date. *)
Record Now : Type := mkNow
  { nowISO : string;
    nowFullYear : N }.

Definition DateParser : Type := string -> option string.

Record DateSpan : Type := mkSpan
  { startDate : string;
    endDate : string }.

(** A value spliced into a template literal. *)
Definition spliced (o : option string) : string :=
  match o with
  | Some s => s
  | None => "undefined"
  end.

(** The body of the inner [try]: the date string built from a match.  The
    interpretation is chosen by looking into [pattern.source]; [None] is a
    thrown [TypeError] ([match[3].length] on a group that took no part). *)
Definition dateStr (now : Now) (pattern : Pattern) (m : MatchResult) : option string :=
  if includes (source pattern) "january|february" then
    let month := group m 1 in
    let day := group m 2 in
    let year := orElse (group m 3) (ofN (nowFullYear now)) in
    Some (spliced month ++ " " ++ spliced day ++ ", " ++ year)%string
  else if includes (source pattern) "\d{1,2}\/" then
    let month := group m 1 in
    let day := group m 2 in
    match group m 3 with
    | None => None
    | Some y =>
        let year := if String.length y =? 2 then ("20" ++ y)%string else y in
        Some (spliced month ++ "/" ++ spliced day ++ "/" ++ year)%string
    end
  else
    let day := group m 1 in
    let month := group m 3 in
    let year := ofN (nowFullYear now) in
    Some (spliced month ++ " " ++ spliced day ++ ", " ++ year)%string.

(** The [for ... of] loop over the patterns still to be tried, with the
    current values of [startDate] and [endDate]. *)
Fixpoint extractLoop (parse : DateParser) (now : Now) (patterns : list Pattern)
    (text : string) (acc : DateSpan) : DateSpan :=
  match patterns with
  | [] => acc
  | pattern :: rest =>
      match exec pattern text with
      | Some m =>
          match dateStr now pattern m with
          | Some str =>
              match parse str with
              | Some iso =>
                  let startDate := iso in
                  let endDate := startDate in
                  mkSpan startDate endDate
              | None => extractLoop parse now rest text acc
              end
          | None => extractLoop parse now rest text acc
          end
      | None => extractLoop parse now rest text acc
      end
  end.

Definition extractDateInfo (parse : DateParser) (now : Now) (text : string) : DateSpan :=
  let startDate := nowISO now in
  let endDate := startDate in
  extractLoop parse now ExtractDate.datePatterns text (mkSpan startDate endDate).

(** A pattern is passed over when it does not match or when the date string
    built from its match is not a valid date. *)
Definition passedOver (parse : DateParser) (now : Now) (text : string) (p : Pattern) : Prop :=
  forall m str, exec p text = Some m -> dateStr now p m = Some str -> parse str = None.

(** *** extractVenue *)

Definition sentinelVenue : string := "See Event Page".

Fixpoint venueLoop (patterns : list Pattern) (text : string) : string :=
  match patterns with
  | [] => sentinelVenue
  | pattern :: rest =>
      match exec pattern text with
      | Some m =>
          if truthy (group m 1) then trim (spliced (group m 1))
          else venueLoop rest text
      | None => venueLoop rest text
      end
  end.

Definition extractVenue (text : string) : string :=
  venueLoop ExtractVenue.venuePatterns text.

(** *** extractTicketUrl *)

Definition ticketDomains : list string :=
  ["eventbrite.com"; "ticketmaster.com"; "universe.com"; "brownpapertickets.com"].

Definition mentionsTicketDomain (url : string) : bool :=
  existsb (fun domain => includes url domain) ticketDomains.

Fixpoint firstTicketUrl (urls : list string) : option string :=
  match urls with
  | [] => None
  | url :: rest => if mentionsTicketDomain url then Some url else firstTicketUrl rest
  end.

Definition extractTicketUrl (eventUrl : option string) (snippet : string) : option string :=
  if existsb (fun domain => truthy eventUrl && includes (spliced eventUrl) domain)
             ticketDomains
  then eventUrl
  else
    let urls := matchAll urlPattern snippet in
    firstTicketUrl urls.

(** *** calculateConfidence *)

Set Warnings "-inexact-float".

Definition eventDomains : list string :=
  ["eventbrite.com"; "meetup.com"; "facebook.com/events"; "lu.ma"].

Definition coreEventKeywords : list string :=
  ["event"; "festival"; "concert"; "conference"; "workshop"].

(** The scorer's [text]. *)
Definition confidenceText (result : RawResult) : string :=
  toLowerCase (orElse (title result) EmptyString ++ " " ++ orElse (snippet result) EmptyString ++ " " ++
               orElse (link result) EmptyString)%string.

(** The four tests, in source order. *)
Definition domainBoost (text : string) : bool :=
  existsb (fun domain => includes text domain) eventDomains.
Definition categoryBoost (text category : string) : bool :=
  includes text (toLowerCase category).
Definition keywordBoost (text : string) : bool :=
  existsb (fun keyword => includes text keyword) coreEventKeywords.

Definition calculateConfidence (result : RawResult) (category : string) : float :=
  let confidence := 0.6%float in
  let text := confidenceText result in
  let confidence := if domainBoost text then (confidence + 0.2)%float else confidence in
  let confidence :=
    if categoryBoost text category then (confidence + 0.1)%float else confidence in
  let confidence := if keywordBoost text then (confidence + 0.1)%float else confidence in
  let confidence :=
    if containsDatePattern text then (confidence + 0.05)%float else confidence in
  (* Math.min(confidence, 1.0) *)
  if (confidence <? 1.0)%float then confidence else 1.0%float.

Set Warnings "+inexact-float".

(** *** transformEvent *)

Module Event.
Record t : Type := mk
  { id : string;
    title : string;
    description : string;
    category : string;
    venue : string;
    location : string;
    startDate : string;
    endDate : string;
    eventUrl : option string;
    ticketUrl : option string;
    source : string;
    confidence : float;
    thumbnail : option string }.
End Event.

(** [null] is [None].  On string-valued properties nothing inside the [try]
    throws, so the [catch] arm (which also returns [null]) is never taken. *)
Definition transformEvent (parse : DateParser) (now : Now)
    (serperResult : RawResult) (category : string) : option Event.t :=
  let title := orElseOpt (title serperResult) (question serperResult) in
  if negb (truthy title) then None
  else
    let title := spliced title in
    let snippet := orElse (snippet serperResult) EmptyString in
    let dateInfo := extractDateInfo parse now (title ++ " " ++ snippet)%string in
    let venue := extractVenue (title ++ " " ++ snippet)%string in
    let eventId := ("serper_" ++ toLowerCase (replaceAll nonAlnum title "_"))%string in
    Some
      {| Event.id := eventId;
         Event.title := title;
         Event.description :=
           orElse (Some snippet) "Event details available on the event page.";
         Event.category := category;
         Event.venue := venue;
         Event.location := venue;
         Event.startDate := startDate dateInfo;
         Event.endDate := endDate dateInfo;
         Event.eventUrl := link serperResult;
         Event.ticketUrl := extractTicketUrl (link serperResult) snippet;
         Event.source := "serper_api";
         Event.confidence := calculateConfidence serperResult category;
         Event.thumbnail := None |}.

(** *** searchEvents *)

Record SearchOptions : Type := mkOptions
  { optCategory : string;
    optLocation : string;
    optLimit : option Z }.

Record Payload : Type := mkPayload
  { q : string; gl : string; hl : string; num : Z; type : string }.

Record Request : Type := mkRequest
  { url : string; apiKeyHeader : string; payload : Payload }.

(** A [relatedSearches] entry is an object with a [query] or a bare string. *)
Inductive Related : Type :=
| RelatedObject (query : option string)
| RelatedString (s : string).

(** The parsed body, when it is an object. *)
Record SerperData : Type := mkData
  { dataError : option string;
    organic : option (list RawResult);
    peopleAlsoAsk : option (list RawResult);
    relatedSearches : option (list Related) }.

Inductive Body : Type :=
| BadJson (message : string)
| Json (data : SerperData).

Record Response : Type := mkResponse
  { ok : bool;
    status : N;
    text : string;
    json : Body }.

(** How [await fetch(...)] completes: rejected by the network, rejected
    because the timeout controller aborted it, or resolved with a response. *)
Inductive FetchOutcome : Type :=
| NetworkError (message : string)
| Aborted (message : string)
| Responded (response : Response).

(** The host: the transport, the two readings of [Date.now()] of one
    invocation, the clock seen by the n-th [transformEvent] call, and the
    date parser. *)
Record Host : Type := mkHost
  { fetch : Request -> FetchOutcome;
    startTime : Z;
    laterTime : Z;
    clock : nat -> Now;
    parseDate : DateParser }.

Record Metadata : Type := mkMetadata
  { totalOrganic : nat;
    relatedTerms : list Related }.

Module Envelope.
Record t : Type := mk
  { success : bool;
    error : option string;
    events : list Event.t;
    count : nat;
    processingTime : Z;
    source : string;
    metadata : option Metadata }.
End Envelope.

(** Completion of a block: a value, or a thrown [Error] with its message. *)
Inductive Completion (A : Type) : Type :=
| Normal (a : A)
| Throw (message : string).
Arguments Normal {A} a.
Arguments Throw {A} message.

Definition orEmpty {A : Type} (o : option (list A)) : list A :=
  match o with
  | Some l => l
  | None => []
  end.

(** [l.slice(0, end)] *)
Definition sliceTo {A : Type} (l : list A) (end_ : Z) : list A :=
  let len := Z.of_nat (List.length l) in
  let final := if (end_ <? 0)%Z then Z.max (len + end_) 0 else Z.min end_ len in
  firstn (Z.to_nat final) l.

(** [.filter(Boolean)] on a list of events and [null]s. *)
Fixpoint compact {A : Type} (l : list (option A)) : list A :=
  match l with
  | [] => []
  | Some a :: rest => a :: compact rest
  | None :: rest => compact rest
  end.

(** [.map(result => this.transformEvent(result, category))], the n-th call
    reading the clock at [n]. *)
Fixpoint transformFrom (host : Host) (category : string) (n : nat)
    (results : list RawResult) : list (option Event.t) :=
  match results with
  | [] => []
  | result :: rest =>
      transformEvent (parseDate host) (clock host n) result category ::
      transformFrom host category (S n) rest
  end.

Definition relatedTerm (r : Related) : Related :=
  match r with
  | RelatedObject query => if truthy query then RelatedString (spliced query) else r
  | RelatedString _ => r
  end.

Definition baseUrl : string := "https://google.serper.dev/search".

Definition effectiveLimit (options : SearchOptions) : Z :=
  match optLimit options with
  | Some limit => limit
  | None => 10%Z
  end.

Definition buildRequest (apiKey : string) (options : SearchOptions) : Request :=
  let limit := effectiveLimit options in
  let query := (optCategory options ++ " events in " ++ optLocation options ++ " 2025")%string in
  mkRequest baseUrl apiKey
    (mkPayload query "us" "en" (Z.min (limit * 2) 20) "search").

(** The candidates that reach the normalizer. *)
Definition candidates (data : SerperData) (limit : Z) : list RawResult :=
  let organicResults := orEmpty (organic data) in
  let peopleAlsoAsk := orEmpty (peopleAlsoAsk data) in
  let eventResults := filterEventResults (organicResults ++ peopleAlsoAsk) in
  sliceTo eventResults limit.

(** The [try] block. *)
Definition searchEventsTry (host : Host) (apiKey : string) (options : SearchOptions)
    : Completion Envelope.t :=
  let category := optCategory options in
  let limit := effectiveLimit options in
  match fetch host (buildRequest apiKey options) with
  | NetworkError message => Throw message
  | Aborted message => Throw message
  | Responded response =>
      let processingTime := (laterTime host - startTime host)%Z in
      if negb (ok response) then
        let errorBody := text response in
        Throw ("HTTP " ++ ofN (status response) ++ ": " ++ errorBody)%string
      else
        match json response with
        | BadJson message => Throw message
        | Json data =>
            if truthy (dataError data) then Throw (spliced (dataError data))
            else
              let organicResults := orEmpty (organic data) in
              let relatedSearches := orEmpty (relatedSearches data) in
              let transformedEvents :=
                compact (transformFrom host category 0 (candidates data limit)) in
              Normal
                {| Envelope.success := true;
                   Envelope.error := None;
                   Envelope.events := transformedEvents;
                   Envelope.count := List.length transformedEvents;
                   Envelope.processingTime := processingTime;
                   Envelope.source := "serper";
                   Envelope.metadata :=
                     Some {| totalOrganic := List.length organicResults;
                             relatedTerms := firstn 5 (map relatedTerm relatedSearches) |} |}
        end
  end.

(** The whole method: the [catch] arm turns every thrown error into the
    failure envelope. *)
Definition searchEvents (host : Host) (apiKey : string) (options : SearchOptions)
    : Completion Envelope.t :=
  match searchEventsTry host apiKey options with
  | Normal envelope => Normal envelope
  | Throw message =>
      let processingTime := (laterTime host - startTime host)%Z in
      Normal
        {| Envelope.success := false;
           Envelope.error := Some message;
           Envelope.events := [];
           Envelope.count := 0;
           Envelope.processingTime := processingTime;
           Envelope.source := "serper";
           Envelope.metadata := None |}
  end.

(** The failures of the provider call: the request is rejected by the
    network or aborted by the timeout, the status is not 2xx, the body is not
    JSON, or the body carries an [error].  Each comes with the message of the
    [Error] raised for it. *)
Inductive TransportFailure : FetchOutcome -> string -> Prop :=
| NetworkFailure (message : string) :
    TransportFailure (NetworkError message) message
| TimedOut (message : string) :
    TransportFailure (Aborted message) message
| BadStatus (response : Response) :
    ok response = false ->
    TransportFailure (Responded response)
      ("HTTP " ++ ofN (status response) ++ ": " ++ text response)%string
| MalformedJson (response : Response) (message : string) :
    ok response = true ->
    json response = BadJson message ->
    TransportFailure (Responded response) message
| ProviderError (response : Response) (data : SerperData) (message : string) :
    ok response = true ->
    json response = Json data ->
    dataError data = Some message ->
    message <> EmptyString ->
    TransportFailure (Responded response) message.

End SerperClient.

(* ------------------------------------------------------------------------- *)
(** ** The reading of "domain" used by the specification *)

Module SpecReading.
Import JSString.

Fixpoint dropScheme (s : string) : string :=
  match s with
  | EmptyString => EmptyString
  | String c s' => if String.prefix "://" s then String.substring 3 (String.length s) s
                   else dropScheme s'
  end.

Fixpoint untilDelimiter (s : string) : string :=
  match s with
  | EmptyString => EmptyString
  | String c s' =>
      if existsb (Ascii.eqb c) ["/"; "?"; "#"; ":"]%char then EmptyString
      else String c (untilDelimiter s')
  end.

(** Follows the specification's words: the domain of a URL is its host, the
    text between the scheme's [://] and the next [/], [?], [#] or [:]. *)
Definition domainOf (url : string) : string :=
  toLowerCase (untilDelimiter (dropScheme url)).

Fixpoint isSuffix (suffix s : string) : bool :=
  String.eqb suffix s ||
  match s with
  | EmptyString => false
  | String _ s' => isSuffix suffix s'
  end.

(** A domain is on a list when it is one of the listed names or a subdomain
    of one ([www.eventbrite.com] for [eventbrite.com]). *)
Definition domainListed (allowed : list string) (url : string) : bool :=
  let d := domainOf url in
  existsb (fun a => String.eqb d a || isSuffix ("." ++ a)%string d) allowed.

End SpecReading.

(* ------------------------------------------------------------------------- *)
(** ** Sample inputs *)

Module Samples.
Import SerperClient.

(** The scenario of section 8 of the specification. *)
Definition jazz : RawResult :=
  {| title := Some "Jazz Festival at Blue Note on March 15, 2025";
     snippet := Some "Tickets available on eventbrite.com";
     link := Some "https://eventbrite.com/jazz";
     question := None |}.

Definition jazzText : string :=
  "Jazz Festival at Blue Note on March 15, 2025 Tickets available on eventbrite.com".

(** A result whose only event signal is a date. *)
Definition dateOnly : RawResult :=
  {| title := Some "March 5"; snippet := None; link := None; question := None |}.

(** A result whose only event signal is a capitalised place after "at". *)
Definition atBlueNote : RawResult :=
  {| title := Some "Live at Blue Note"; snippet := None; link := None; question := None |}.

(** A "people also ask" entry and the same entry without its question. *)
Definition faq : RawResult :=
  {| title := None; snippet := Some "Doors open early";
     link := Some "https://example.org/faq";
     question := Some "Is there a concert tonight?" |}.

Definition faqNoQuestion : RawResult :=
  {| title := None; snippet := Some "Doors open early";
     link := Some "https://example.org/faq";
     question := None |}.

(** A host whose date parser accepts everything and echoes its argument. *)
Definition echoParser : DateParser := fun str => Some ("parsed:" ++ str)%string.
Definition newYear : Now := {| nowISO := "2026-01-01T00:00:00.000Z"; nowFullYear := 2026 |}.

(** A raw result with neither title nor question, which still passes the
    filter through its snippet. *)
Definition untitled : RawResult :=
  {| title := None; snippet := Some "Live concert this weekend";
     link := Some "https://example.org/gig"; question := None |}.

Definition threeHits : SerperData :=
  {| dataError := None;
     organic := Some [jazz; untitled; dateOnly];
     peopleAlsoAsk := Some [faq];
     relatedSearches := None |}.

Definition hostAnswering (outcome : FetchOutcome) : Host :=
  {| fetch := fun _ => outcome;
     startTime := 1000;
     laterTime := 1250;
     clock := fun _ => newYear;
     parseDate := echoParser |}.

Definition okResponse (data : SerperData) : FetchOutcome :=
  Responded {| ok := true; status := 200; text := EmptyString; json := Json data |}.

Definition musicInSF (limit : option Z) : SearchOptions :=
  {| optCategory := "music"; optLocation := "San Francisco"; optLimit := limit |}.

End Samples.

(* ------------------------------------------------------------------------- *)
(** ** Views of the client used to state further properties *)

Module SerperViews.
Import JSString RegExp SerperClient.

(** The provider answered the search request with a 2xx status and a JSON
    object without an [error]: the [try] block reaches its [return]. *)
Definition Answers (host : Host) (apiKey : string) (options : SearchOptions)
    (data : SerperData) : Prop :=
  exists response,
    fetch host (buildRequest apiKey options) = Responded response /\
    ok response = true /\
    json response = Json data /\
    truthy (dataError data) = false.

(** [serperResult.title || serperResult.question], as a test and as a value. *)
Definition hasTitle (result : RawResult) : bool :=
  truthy (orElseOpt (title result) (question result)).

Definition titleOf (result : RawResult) : string :=
  spliced (orElseOpt (title result) (question result)).

(** The results that pass the classifier, before the cut at [limit]. *)
Definition survivors (data : SerperData) : list RawResult :=
  filterEventResults (orEmpty (organic data) ++ orEmpty (peopleAlsoAsk data)).



Definition isLetter (c : ascii) : bool := isUpperAlpha c || isLowerAlpha c.

(** Group 1 of a match state holds a non-empty span of [input] that begins
    with a letter. *)
Definition CapturedName (input : list ascii) (y : MatchState) : Prop :=
  exists b e ch,
    nth_error (captures y) 0 = Some (Some (b, e)) /\
    b < e /\ e <= List.length input /\
    nth_error input b = Some ch /\ isLetter ch = true.

(** A string that is empty or begins with a character that is not blank. *)
Definition noLeadingBlank (s : string) : Prop :=
  match s with
  | EmptyString => True
  | String c _ => isWhiteSpace c = false
  end.



End SerperViews.

(* ------------------------------------------------------------------------- *)
(** ** SerperClient.getHealthStatus *)

Module HealthProbe.
Import JSString.





(** [data.credits || 'unknown'] *)
Inductive Credits : Type :=
| CreditsLeft (n : N)
| CreditsUnknown.

Module Health.
Record t : Type := mk
  { status : string;
    latency : option Z;
    message : string;
    credits : option Credits }.
End Health.





End HealthProbe.

(* ------------------------------------------------------------------------- *)
(** ** apiHealthCheck.ts: the frontend's ApiHealthChecker *)

Module ApiHealthChecker.
Import JSString.

Module Backend.
Record t : Type := mk
  { reachable : bool;
    responseTime : Z;
    error : option string }.
End Backend.

Module Api.
Record t : Type := mk
  { functional : bool;
    eventsFetching : bool;
    sampleEventCount : nat;
    error : option string }.
End Api.

Module Status.
Record t : Type := mk
  { isHealthy : bool;
    backend : Backend.t;
    api : Api.t;
    lastChecked : string;
    consecutiveFailures : nat }.
End Status.

(** A subscriber, known by the identity of its function object. *)
Definition Callback : Type := nat.

(** The instance: [baseUrl], [status], [checkInterval] and [listeners]. *)
Record Checker : Type := mkChecker
  { baseUrl : string;
    status : Status.t;
    checkInterval : option nat;
    listeners : list Callback }.

(** A thrown value: an [Error] with its message, or anything else. *)
Inductive Thrown : Type :=
| ErrorObject (message : string)
| OtherValue.

(** [error instanceof Error ? error.message : 'Unknown error'] *)
Definition describe (thrown : Thrown) : string :=
  match thrown with
  | ErrorObject message => message
  | OtherValue => "Unknown error"
  end.

(** How a [fetch] followed by [response.json()] goes, for a body of shape
    [B]: the fetch rejects (network, or the timeout signal), or it resolves
    with a status, and then reading the body as JSON throws or succeeds. *)
Inductive Parsed (B : Type) : Type :=
| JsonThrows (thrown : Thrown)
| JsonValue (data : B).
Arguments JsonThrows {B} thrown.
Arguments JsonValue {B} data.

Inductive Fetched (B : Type) : Type :=
| FetchThrows (thrown : Thrown)
| FetchResolves (ok : bool) (status : N) (statusText : string) (body : Parsed B).
Arguments FetchThrows {B} thrown.
Arguments FetchResolves {B} ok status statusText body.

(** What the checker reads of the bodies: [data.status] of the health
    endpoint; of the events endpoint the truthiness of [data.success], the
    length of [data.events] when it is an array, and [data.error]. *)
Record HealthData : Type := mkHealthData
  { reportedStatus : option string }.

Record EventsData : Type := mkEventsData
  { success : bool;
    eventsArray : option nat;
    reportedError : option string }.

(** The surroundings of one [performHealthCheck]: the two endpoints, the
    elapsed times [Date.now() - startTime] read in [checkBackendHealth] after
    the response and in its [catch], the two values of [new Date()], and which
    subscriber throws on which status.  Subscribers are taken not to touch
    the checker while they are notified. *)
Record World : Type := mkWorld
  { getHealth : Fetched HealthData;
    getEvents : Fetched EventsData;
    elapsedAtResponse : Z;
    elapsedAtCatch : Z;
    checkedAt : string;
    failedAt : string;
    listenerThrows : Callback -> Status.t -> bool }.

Definition defaultBaseUrl : string := "http://localhost:8765/api".

(** The constructor's instance. *)
Definition initial (constructedAt : string) : Checker :=
  {| baseUrl := defaultBaseUrl;
     status :=
       {| Status.isHealthy := false;
          Status.backend := Backend.mk false 0 None;
          Status.api := Api.mk false false 0 None;
          Status.lastChecked := constructedAt;
          Status.consecutiveFailures := 0 |};
     checkInterval := None;
     listeners := [] |}.

(** [subscribe(callback)]: the new instance; the function it returns is
    [unsubscribe callback]. *)
Definition subscribe (callback : Callback) (c : Checker) : Checker :=
  {| baseUrl := baseUrl c;
     status := status c;
     checkInterval := checkInterval c;
     listeners := listeners c ++ [callback] |}.



(** [notifyListeners]: the calls made, in order, and whether one threw
    (which ends the [forEach]). *)
Fixpoint notifyListeners (w : World) (l : list Callback) (s : Status.t)
    : list (Callback * Status.t) * bool :=
  match l with
  | [] => ([], false)
  | callback :: rest =>
      if listenerThrows w callback s then ([(callback, s)], true)
      else let (calls, threw) := notifyListeners w rest s in
           ((callback, s) :: calls, threw)
  end.

Definition healthUrl (c : Checker) : string := (baseUrl c ++ "/health")%string.

Definition eventsUrl (c : Checker) : string :=
  (baseUrl c ++
   "/events/theatre?location=San%20Francisco,%20CA&date_range=next%2030%20days")%string.

(** [checkBackendHealth] *)
Definition checkBackendHealth (w : World) : Backend.t :=
  match getHealth w with
  | FetchThrows thrown =>
      Backend.mk false (elapsedAtCatch w) (Some (describe thrown))
  | FetchResolves true _ _ (JsonThrows thrown) =>
      Backend.mk false (elapsedAtCatch w) (Some (describe thrown))
  | FetchResolves true _ _ (JsonValue data) =>
      Backend.mk true (elapsedAtResponse w)
        (if match reportedStatus data with
            | Some reported => String.eqb reported "healthy"
            | None => false
            end
         then None
         else Some ("Backend reports status: " ++
                    SerperClient.spliced (reportedStatus data))%string)
  | FetchResolves false status statusText _ =>
      Backend.mk false (elapsedAtResponse w)
        (Some ("HTTP " ++ ofN status ++ ": " ++ statusText)%string)
  end.

(** [testApiFunction] *)
Definition testApiFunction (w : World) : Api.t :=
  match getEvents w with
  | FetchThrows thrown => Api.mk false false 0 (Some (describe thrown))
  | FetchResolves false status statusText _ =>
      Api.mk false false 0 (Some ("HTTP " ++ ofN status ++ ": " ++ statusText)%string)
  | FetchResolves true _ _ (JsonThrows thrown) =>
      Api.mk false false 0 (Some (describe thrown))
  | FetchResolves true _ _ (JsonValue data) =>
      match success data, eventsArray data with
      | true, Some n => Api.mk true true n None
      | _, _ =>
          Api.mk false false 0
            (Some (orElse (reportedError data) "API returned invalid response format"))
      end
  end.

(** How the promise of [performHealthCheck] settles. *)
Inductive Settled : Type :=
| Resolved (s : Status.t)
| Rejected.

(** One [performHealthCheck]: the instance afterwards, the URLs fetched, the
    subscriber calls made, and how the promise settles. *)
Record Outcome : Type := mkOutcome
  { after : Checker;
    requested : list string;
    notified : list (Callback * Status.t);
    settled : Settled }.

Definition withStatus (c : Checker) (s : Status.t) : Checker :=
  {| baseUrl := baseUrl c;
     status := s;
     checkInterval := checkInterval c;
     listeners := listeners c |}.

Definition failedStatus (w : World) (previous : Status.t) : Status.t :=
  {| Status.isHealthy := false;
     Status.backend := Backend.mk false 0 (Some "Health check failed");
     Status.api := Api.mk false false 0 (Some "Health check failed");
     Status.lastChecked := failedAt w;
     Status.consecutiveFailures := Status.consecutiveFailures previous + 1 |}.

(** The status assigned in the [try] block, from the previous one. *)
Definition checkedStatus (w : World) (previous : Status.t) : Status.t :=
  let backendHealth := checkBackendHealth w in
  let apiHealth :=
    if Backend.reachable backendHealth then testApiFunction w
    else Api.mk false false 0 (Some "Backend not reachable") in
  let isHealthy := Backend.reachable backendHealth && Api.functional apiHealth in
  let consecutiveFailures :=
    if isHealthy then 0 else Status.consecutiveFailures previous + 1 in
  {| Status.isHealthy := isHealthy;
     Status.backend := backendHealth;
     Status.api := apiHealth;
     Status.lastChecked := checkedAt w;
     Status.consecutiveFailures := consecutiveFailures |}.

(** The URLs fetched: the events endpoint only after a reachable backend. *)
Definition urlsFetched (w : World) (c : Checker) : list string :=
  if Backend.reachable (checkBackendHealth w) then [healthUrl c; eventsUrl c]
  else [healthUrl c].

Definition performHealthCheck (w : World) (c : Checker) : Outcome :=
  let checked := checkedStatus w (status c) in
  let urls := urlsFetched w c in
  match notifyListeners w (listeners c) checked with
  | (calls, false) => mkOutcome (withStatus c checked) urls calls (Resolved checked)
  | (calls, true) =>
      (* the catch arm, entered when a subscriber throws *)
      let failed := failedStatus w checked in
      match notifyListeners w (listeners c) failed with
      | (again, false) =>
          mkOutcome (withStatus c failed) urls (calls ++ again) (Resolved failed)
      | (again, true) =>
          mkOutcome (withStatus c failed) urls (calls ++ again) Rejected
      end
  end.

(** No subscriber throws in these surroundings. *)
Definition quiet (w : World) : Prop :=
  forall callback s, listenerThrows w callback s = false.

(** The backend answers and the events endpoint delivers. *)
Definition healthyWorld (w : World) : bool :=
  Backend.reachable (checkBackendHealth w) && Api.functional (testApiFunction w).

(** The properties every status has once a check has run. *)
Definition Coherent (s : Status.t) : Prop :=
  Status.isHealthy s =
    Backend.reachable (Status.backend s) && Api.functional (Status.api s) /\
  Api.eventsFetching (Status.api s) = Api.functional (Status.api s) /\
  (Api.functional (Status.api s) = true -> Api.error (Status.api s) = None) /\
  (Api.functional (Status.api s) = false ->
   Api.sampleEventCount (Status.api s) = 0 /\ Api.error (Status.api s) <> None) /\
  (Backend.reachable (Status.backend s) = false ->
   Api.functional (Status.api s) = false /\ Backend.error (Status.backend s) <> None) /\
  (Status.isHealthy s = true -> Status.consecutiveFailures s = 0) /\
  (Status.isHealthy s = false -> 1 <= Status.consecutiveFailures s).

(** [getCurrentStatus] and [forceCheck] *)
Definition getCurrentStatus (c : Checker) : Status.t := status c.
Definition forceCheck (w : World) (c : Checker) : Outcome := performHealthCheck w c.

(** Checks made one after the other, each in its own surroundings. *)
Fixpoint runChecks (ws : list World) (c : Checker) : Checker :=
  match ws with
  | [] => c
  | w :: rest => runChecks rest (after (performHealthCheck w c))
  end.

(** The interval timers of the page: the live ones with their periods, and
    the next handle [setInterval] will return (handles are positive, hence
    truthy). *)
Record Timers : Type := mkTimers
  { live : list (nat * Z);
    nextHandle : nat }.

Definition clearInterval (handle : nat) (t : Timers) : Timers :=
  mkTimers (filter (fun entry => negb (fst entry =? handle)) (live t)) (nextHandle t).

Definition setInterval (period : Z) (t : Timers) : nat * Timers :=
  (nextHandle t, mkTimers ((nextHandle t, period) :: live t) (S (nextHandle t))).

(** The synchronous part of [startMonitoring] and [stopMonitoring]: the
    timers and the instance afterwards, and the number of checks started
    without being awaited. *)
Record Monitor : Type := mkMonitor
  { timers : Timers;
    checker : Checker;
    checksStarted : nat }.

Definition withInterval (c : Checker) (handle : option nat) : Checker :=
  {| baseUrl := baseUrl c;
     status := status c;
     checkInterval := handle;
     listeners := listeners c |}.

Definition startMonitoring (intervalMs : option Z) (m : Monitor) : Monitor :=
  let intervalMs := match intervalMs with Some ms => ms | None => 30000%Z end in
  let cleared :=
    match checkInterval (checker m) with
    | Some handle => clearInterval handle (timers m)
    | None => timers m
    end in
  let (handle, set) := setInterval intervalMs cleared in
  mkMonitor set (withInterval (checker m) (Some handle)) (S (checksStarted m)).

Definition stopMonitoring (m : Monitor) : Monitor :=
  match checkInterval (checker m) with
  | Some handle =>
      mkMonitor (clearInterval handle (timers m)) (withInterval (checker m) None)
                (checksStarted m)
  | None => m
  end.

Inductive MonitorCall : Type :=
| Start (intervalMs : option Z)
| Stop.

Definition call (op : MonitorCall) (m : Monitor) : Monitor :=
  match op with
  | Start intervalMs => startMonitoring intervalMs m
  | Stop => stopMonitoring m
  end.

Definition calls (ops : list MonitorCall) (m : Monitor) : Monitor :=
  fold_left (fun acc op => call op acc) ops m.

(** The number of [startMonitoring] calls in a list. *)
Definition starts (ops : list MonitorCall) : nat :=
  List.length (filter (fun op => match op with Start _ => true | Stop => false end) ops).

(** A freshly loaded page: no timer, the constructor's instance. *)
Definition freshMonitor (constructedAt : string) : Monitor :=
  mkMonitor (mkTimers [] 1) (initial constructedAt) 0.

(** An interval timer runs exactly when the instance remembers its handle. *)
Definition TimerKept (m : Monitor) : Prop :=
  (exists handle period,
      checkInterval (checker m) = Some handle /\
      live (timers m) = [(handle, period)] /\
      handle < nextHandle (timers m)) \/
  (checkInterval (checker m) = None /\ live (timers m) = []).

(** Sample surroundings. *)
Definition eventsOk : Fetched EventsData :=
  FetchResolves true 200 "OK" (JsonValue (mkEventsData true (Some 3) None)).

Definition worldDown : World :=
  mkWorld (FetchThrows (ErrorObject "Failed to fetch")) eventsOk
          12 15 "2026-01-01T00:00:00.000Z" "2026-01-01T00:00:01.000Z"
          (fun _ _ => false).

Definition worldUp : World :=
  mkWorld (FetchResolves true 200 "OK" (JsonValue (mkHealthData (Some "healthy"))))
          eventsOk 12 15 "2026-01-01T00:00:00.000Z" "2026-01-01T00:00:01.000Z"
          (fun _ _ => false).

Definition worldDegraded : World :=
  mkWorld (FetchResolves true 200 "OK" (JsonValue (mkHealthData (Some "unhealthy"))))
          eventsOk 12 15 "2026-01-01T00:00:00.000Z" "2026-01-01T00:00:01.000Z"
          (fun _ _ => false).


Definition threeSubscribers : Checker :=
  subscribe 3 (subscribe 2 (subscribe 1 (initial "2026-01-01T00:00:00.000Z"))).

End ApiHealthChecker.

(* ------------------------------------------------------------------------- *)
(** ** Properties *)

Import JSString RegExp SerperClient.

(** The printed form of every pattern literal is unambiguous, and the groups
    are numbered in left-parenthesis order. *)
Lemma patterns_well_formed :
  forallb (fun p => wellFormed (body p) && numbered (body p)) allPatterns = true.
Proof. vm_compute. reflexivity. Qed.

(** The source text of each literal, as [pattern.source] returns it. *)
Lemma extract_date_sources :
  map source ExtractDate.datePatterns =
  ["\b(january|february|march|april|may|june|july|august|september|october|november|december)\s+(\d{1,2}),?\s*(\d{4})?";
   "\b(\d{1,2})\/(\d{1,2})\/(\d{2,4})\b";
   "\b(\d{1,2})(st|nd|rd|th)\s+(january|february|march|april|may|june|july|august|september|october|november|december)"].
Proof. vm_compute. reflexivity. Qed.

Lemma extract_venue_sources :
  map source ExtractVenue.venuePatterns =
  ["\b(?:at|@)\s+([A-Z][a-zA-Z\s&'-]+(?:Center|Centre|Hall|Theatre|Theater|Auditorium|Stadium|Arena|Club|Bar|Restaurant|Hotel|Museum|Gallery|Park))\b";
   "\b([A-Z][a-zA-Z\s&'-]+(?:Center|Centre|Hall|Theatre|Theater|Auditorium|Stadium|Arena))\b";
   "\b(?:venue|location):\s*([A-Z][a-zA-Z\s&'-]+)"].
Proof. vm_compute. reflexivity. Qed.

Lemma contains_date_sources :
  map source ContainsDate.datePatterns =
  ["\b(january|february|march|april|may|june|july|august|september|october|november|december)\s+\d{1,2}";
   "\b\d{1,2}\/\d{1,2}\/\d{2,4}\b";
   "\b(mon|tue|wed|thu|fri|sat|sun)[a-z]*\s*,?\s*(jan|feb|mar|apr|may|jun|jul|aug|sep|oct|nov|dec)";
   "\b(today|tomorrow|tonight|this\s+(week|weekend|month))\b";
   "\b\d{1,2}(st|nd|rd|th)\s+(of\s+)?(january|february|march|april|may|june|july|august|september|october|november|december)"].
Proof. vm_compute. reflexivity. Qed.

Lemma contains_venue_sources :
  map source ContainsVenue.venuePatterns =
  ["\b(at|@)\s+[A-Z][a-zA-Z\s]+\b";
   "\b(venue|location|address|hall|center|theatre|theater|auditorium|stadium|arena)\b";
   "\b\d+\s+[A-Z][a-zA-Z\s]+\s+(street|st|avenue|ave|road|rd|boulevard|blvd|drive|dr)\b"].
Proof. vm_compute. reflexivity. Qed.

Lemma other_sources :
  source urlPattern = "https?:\/\/[^\s]+" /\ source nonAlnum = "[^a-zA-Z0-9]".
Proof. vm_compute. split; reflexivity. Qed.

(** *** Facts about the matcher *)

Section MatcherFacts.

Variable input : list ascii.
Variable icase : bool.

Lemma setNth_length {A : Type} (n : nat) (v : A) (l : list A) :
  List.length (setNth n v l) = List.length l.
Proof.
  revert n. induction l as [| h t IH]; intros [| n]; simpl; auto.
Qed.

Lemma setNth_hit {A : Type} (n : nat) (v : A) (l : list A) :
  n < List.length l -> nth_error (setNth n v l) n = Some v.
Proof.
  revert n. induction l as [| h t IH]; intros [| n] Hn; simpl in *; try lia; auto.
  apply IH. lia.
Qed.

Lemma Reaches_refl (x : MatchState) : Reaches input x x.
Proof. unfold Reaches. auto. Qed.

Lemma Reaches_trans (x y z : MatchState) :
  Reaches input x y -> Reaches input y z -> Reaches input x z.
Proof. unfold Reaches. intros (? & ? & ?) (? & ? & ?). repeat split; try lia; auto. Qed.

Lemma Reaches_setCapture (i : nat) (v : option (nat * nat)) (x : MatchState) :
  Reaches input x (setCapture i v x).
Proof. unfold Reaches, setCapture. simpl. rewrite setNth_length. auto. Qed.

Lemma Reaches_clearCaptures (idxs : list nat) (x : MatchState) :
  Reaches input x (clearCaptures idxs x) /\
  endIndex (clearCaptures idxs x) = endIndex x.
Proof.
  unfold clearCaptures. revert x.
  induction idxs as [| i idxs IH]; intros x; simpl.
  - split; [apply Reaches_refl | reflexivity].
  - destruct (IH (setCapture i None x)) as [Hr He]. split.
    + eapply Reaches_trans; [apply Reaches_setCapture | exact Hr].
    + rewrite He. reflexivity.
Qed.

Lemma charMatcher_progress (test : ascii -> bool) :
  Progress input (charMatcher input test).
Proof.
  intros x c z. unfold charMatcher.
  destruct (nth_error input (endIndex x)) as [ch |] eqn:Hch; [| discriminate].
  destruct (test ch); [| discriminate].
  intros Hc. exists (mkState (S (endIndex x)) (captures x)).
  assert (endIndex x < List.length input) by (apply nth_error_Some; congruence).
  unfold Reaches. simpl. repeat split; auto; lia.
Qed.

Lemma Progress_Forward (m : Matcher) : Progress input m -> Forward input m.
Proof.
  intros Hm x c z Hz. destruct (Hm x c z Hz) as (y & Hy & Hr & _).
  exists y. auto.
Qed.

Lemma repeatMatcher_forward (m : Matcher) (parens : list nat) :
  Forward input m ->
  forall fuel min max, Forward input (repeatMatcher fuel m parens min max).
Proof.
  intros Hm. induction fuel as [| fuel IH]; intros min max x c z; simpl.
  - discriminate.
  - set (d := fun y : MatchState =>
                if (min =? 0) && (endIndex y =? endIndex x) then None
                else repeatMatcher fuel m parens (pred min) (option_map pred max) y c).
    assert (Hd : forall y, d y = Some z -> exists y', c y' = Some z /\ Reaches input y y').
    { intros y. unfold d.
      destruct ((min =? 0) && (endIndex y =? endIndex x)); [discriminate |].
      apply IH. }
    assert (Hiter : m (clearCaptures parens x) d = Some z ->
                    exists y, c y = Some z /\ Reaches input x y).
    { intros Hz. destruct (Hm _ _ _ Hz) as (y & Hy & Hr).
      destruct (Hd y Hy) as (y' & Hy' & Hr').
      exists y'. split; [assumption |].
      eapply Reaches_trans; [apply Reaches_clearCaptures |].
      eapply Reaches_trans; eassumption. }
    assert (Hbody :
              (if negb (min =? 0) then m (clearCaptures parens x) d
               else match m (clearCaptures parens x) d with
                    | Some z' => Some z'
                    | None => c x
                    end) = Some z ->
              exists y, c y = Some z /\ Reaches input x y).
    { destruct (negb (min =? 0)); [exact Hiter |].
      destruct (m (clearCaptures parens x) d) as [z' |] eqn:Hz'.
      - intros [= ->]. apply Hiter. reflexivity.
      - intros Hc. exists x. split; [assumption | apply Reaches_refl]. }
    destruct max as [[| k] |]; try exact Hbody.
    intros Hc. exists x. split; [assumption | apply Reaches_refl].
Qed.

Lemma compile_forward (r : Regex) : Forward input (compile input icase r).
Proof.
  induction r as [| ch | ch | | | | neg atoms | r1 IH1 r2 IH2 | r1 IH1 r2 IH2
                  | i r IH | r IH | r IH min max]; simpl.
  - intros x c z Hz. exists x. split; [assumption | apply Reaches_refl].
  - apply Progress_Forward, charMatcher_progress.
  - apply Progress_Forward, charMatcher_progress.
  - apply Progress_Forward, charMatcher_progress.
  - apply Progress_Forward, charMatcher_progress.
  - intros x c z.
    destruct (xorb _ _); [| discriminate].
    intros Hz. exists x. split; [assumption | apply Reaches_refl].
  - apply Progress_Forward, charMatcher_progress.
  - intros x c z Hz.
    destruct (IH1 _ _ _ Hz) as (y1 & Hy1 & Hr1).
    destruct (IH2 _ _ _ Hy1) as (y2 & Hy2 & Hr2).
    exists y2. split; [assumption | eapply Reaches_trans; eassumption].
  - intros x c z.
    destruct (compile input icase r1 x c) as [z1 |] eqn:H1.
    + intros [= ->]. apply IH1. assumption.
    + apply IH2.
  - intros x c z Hz.
    destruct (IH _ _ _ Hz) as (y & Hy & Hr).
    eexists. split; [exact Hy |].
    eapply Reaches_trans; [exact Hr | apply Reaches_setCapture].
  - exact IH.
  - intros x c z. apply repeatMatcher_forward. exact IH.
Qed.


Lemma seq_forward (r1 r2 : Regex) (x : MatchState) (c : Continuation) (z : MatchState) :
  compile input icase (RSeq r1 r2) x c = Some z ->
  exists y, compile input icase r2 y c = Some z /\ Reaches input x y.
Proof. simpl. apply (compile_forward r1). Qed.

Lemma class_seq_progress (neg : bool) (atoms : list ClassAtom) (rest : Regex) :
  Progress input (compile input icase (RSeq (RClass neg atoms) rest)).
Proof.
  intros x c z Hz. simpl in Hz.
  destruct (charMatcher_progress _ _ _ _ Hz) as (y & Hy & Hr & Hlt & Hle).
  destruct (compile_forward rest _ _ _ Hy) as (y' & Hy' & Hr').
  exists y'. split; [assumption |].
  split; [eapply Reaches_trans; eassumption |].
  unfold Reaches in Hr'. lia.
Qed.

Lemma group_last (G : Regex) (x z : MatchState) :
  Progress input (compile input icase G) ->
  0 < List.length (captures x) ->
  compile input icase (RGroup 1 G) x (fun y => Some y) = Some z ->
  Captured input 1 z.
Proof.
  intros HG Hcap Hz. simpl in Hz.
  destruct (HG _ _ _ Hz) as (y & Hy & (_ & _ & Hlen) & Hlt & Hle).
  injection Hy as <-.
  exists (endIndex x), (endIndex y).
  unfold setCapture. cbn [captures].
  rewrite setNth_hit by (simpl; lia). auto.
Qed.

Lemma group_then_boundary (G : Regex) (x z : MatchState) :
  Progress input (compile input icase G) ->
  0 < List.length (captures x) ->
  compile input icase (RSeq (RGroup 1 G) RWordBoundary) x (fun y => Some y) = Some z ->
  Captured input 1 z.
Proof.
  intros HG Hcap Hz. simpl in Hz.
  destruct (HG _ _ _ Hz) as (y & Hy & (_ & _ & Hlen) & Hlt & Hle).
  destruct (xorb _ _); [| discriminate].
  injection Hy as <-.
  exists (endIndex x), (endIndex y).
  unfold setCapture. cbn [captures].
  rewrite setNth_hit by (simpl; lia). auto.
Qed.

Lemma scanFrom_inv (r : Regex) (ncap : nat) :
  forall n i res,
    scanFrom input icase r ncap n i = Some res ->
    compile input icase r (mkState (fst res) (repeat None ncap)) (fun y => Some y)
    = Some (snd res).
Proof.
  induction n as [| n IH]; intros i res; simpl;
    destruct (compile input icase r (mkState i (repeat None ncap)) (fun y => Some y))
      as [y |] eqn:Hy; try discriminate; try (intros [= <-]; exact Hy).
  apply IH.
Qed.

End MatcherFacts.

Lemma length_list_ascii (s : string) :
  List.length (list_ascii_of_string s) = String.length s.
Proof. induction s; simpl; auto. Qed.

Lemma substring_nonempty (s : string) :
  forall b n, b < String.length s -> 0 < n -> String.substring b n s <> EmptyString.
Proof.
  induction s as [| ch s IH]; intros b n Hb Hn; simpl in *; [lia |].
  destruct b as [| b].
  - destruct n; [lia | discriminate].
  - apply IH; lia.
Qed.

Lemma slice_nonempty (s : string) (b e : nat) :
  b < e -> e <= String.length s -> truthy (Some (slice s b e)) = true.
Proof.
  intros Hbe He. unfold truthy, slice.
  destruct (String.eqb_spec (String.substring b (e - b) s) EmptyString) as [Heq |]; [| reflexivity].
  exfalso. revert Heq. apply substring_nonempty; lia.
Qed.

(** A match whose final state has group 1 set reports its text. *)
Lemma exec_group1 (p : Pattern) (text : string) (m : MatchResult) :
  (forall x z,
      0 < List.length (captures x) ->
      compile (list_ascii_of_string text) (ignoreCase p) (body p) x (fun y => Some y)
      = Some z ->
      Captured (list_ascii_of_string text) 1 z) ->
  0 < List.length (groups (body p)) ->
  exec p text = Some m ->
  exists b e, b < e /\ e <= String.length text /\
              group m 1 = Some (slice text b e).
Proof.
  intros Hcap Hgroups. unfold exec, execFrom. cbv zeta.
  destruct (_ <? 0) eqn:Hlt; [apply Nat.ltb_lt in Hlt; lia |].
  destruct (scanFrom _ _ _ _ _ _) as [[i y] |] eqn:Hscan; [| discriminate].
  intros [= <-].
  apply scanFrom_inv in Hscan. simpl in Hscan.
  apply Hcap in Hscan; [| simpl; rewrite repeat_length; assumption].
  destruct Hscan as (b & e & Hnth & Hbe & He).
  exists b, e. rewrite length_list_ascii in He.
  repeat split; try assumption.
  unfold group. cbn [groupTexts]. change (1 - 1) with 0 in *.
  rewrite nth_error_map, Hnth. reflexivity.
Qed.

Lemma venue_patterns_capture (p : Pattern) (text : string) (m : MatchResult) :
  In p ExtractVenue.venuePatterns ->
  exec p text = Some m ->
  exists b e, b < e /\ e <= String.length text /\
              group m 1 = Some (slice text b e).
Proof.
  intros Hin. apply exec_group1.
  - destruct Hin as [<- | [<- | [<- | []]]]; intros x z Hx Hz.
    + change (body ExtractVenue.atVenue) with
        (RSeq RWordBoundary
           (RSeq (RNonCap (alts [lit "at"; lit "@"]))
              (RSeq (plus RSpace)
                 (RSeq (RGroup 1
                          (RSeq (RClass false [CaRange "A" "Z"])
                             (RSeq (plus (RClass false venueChars))
                                (RNonCap (words (ExtractVenue.venueNouns ++
                                                 ExtractVenue.moreVenueNouns))))))
                    RWordBoundary)))) in Hz.
      apply seq_forward in Hz. destruct Hz as (y1 & Hz & (_ & _ & H1)).
      apply seq_forward in Hz. destruct Hz as (y2 & Hz & (_ & _ & H2)).
      apply seq_forward in Hz. destruct Hz as (y3 & Hz & (_ & _ & H3)).
      eapply group_then_boundary; [apply class_seq_progress | | exact Hz]. lia.
    + change (body ExtractVenue.bareVenue) with
        (RSeq RWordBoundary
           (RSeq (RGroup 1
                    (RSeq (RClass false [CaRange "A" "Z"])
                       (RSeq (plus (RClass false venueChars))
                          (RNonCap (words ExtractVenue.venueNouns)))))
              RWordBoundary)) in Hz.
      apply seq_forward in Hz. destruct Hz as (y1 & Hz & (_ & _ & H1)).
      eapply group_then_boundary; [apply class_seq_progress | | exact Hz]. lia.
    + change (body ExtractVenue.labelled) with
        (RSeq RWordBoundary
           (RSeq (RNonCap (words ["venue"; "location"]))
              (RSeq (RChar ":")
                 (RSeq (star RSpace)
                    (RGroup 1
                       (RSeq (RClass false [CaRange "A" "Z"])
                          (plus (RClass false venueChars)))))))) in Hz.
      apply seq_forward in Hz. destruct Hz as (y1 & Hz & (_ & _ & H1)).
      apply seq_forward in Hz. destruct Hz as (y2 & Hz & (_ & _ & H2)).
      apply seq_forward in Hz. destruct Hz as (y3 & Hz & (_ & _ & H3)).
      apply seq_forward in Hz. destruct Hz as (y4 & Hz & (_ & _ & H4)).
      eapply group_last; [apply class_seq_progress | | exact Hz]. lia.
  - destruct Hin as [<- | [<- | [<- | []]]]; vm_compute; lia.
Qed.

(** *** The fuel of the loops is enough *)

Section FuelFacts.

Variable input : list ascii.
Variable icase : bool.

Lemma charMatcher_local (test : ascii -> bool) : Local input (charMatcher input test).
Proof.
  intros x c c' Hc. unfold charMatcher.
  destruct (nth_error input (endIndex x)) as [ch |] eqn:Hch; [| reflexivity].
  destruct (test ch); [| reflexivity].
  apply Hc.
  assert (endIndex x < List.length input) by (apply nth_error_Some; congruence).
  unfold Reaches. simpl. repeat split; auto; lia.
Qed.

Lemma repeatMatcher_local (m : Matcher) (parens : list nat) :
  Local input m ->
  forall fuel min max, Local input (repeatMatcher fuel m parens min max).
Proof.
  intros Hm. induction fuel as [| fuel IH]; intros min max x c c' Hc; simpl;
    [reflexivity |].
  assert (Hiter :
            m (clearCaptures parens x)
              (fun y => if (min =? 0) && (endIndex y =? endIndex x) then None
                        else repeatMatcher fuel m parens (pred min) (option_map pred max) y c)
            = m (clearCaptures parens x)
                (fun y => if (min =? 0) && (endIndex y =? endIndex x) then None
                          else repeatMatcher fuel m parens (pred min) (option_map pred max) y c')).
  { apply Hm. intros y Hy.
    destruct ((min =? 0) && (endIndex y =? endIndex x)); [reflexivity |].
    apply IH. intros y' Hy'. apply Hc.
    eapply Reaches_trans; [apply Reaches_clearCaptures |].
    eapply Reaches_trans; eassumption. }
  rewrite Hiter, (Hc x (Reaches_refl input x)).
  destruct max as [[| k] |]; reflexivity.
Qed.

Lemma compile_local (r : Regex) : Local input (compile input icase r).
Proof.
  induction r as [| ch | ch | | | | neg atoms | r1 IH1 r2 IH2 | r1 IH1 r2 IH2
                  | i r IH | r IH | r IH min max]; simpl;
    try apply charMatcher_local.
  - intros x c c' Hc. apply Hc, Reaches_refl.
  - intros x c c' Hc. rewrite (Hc x (Reaches_refl input x)). reflexivity.
  - intros x c c' Hc. apply IH1. intros y Hy. apply IH2. intros y' Hy'.
    apply Hc. eapply Reaches_trans; eassumption.
  - intros x c c' Hc. rewrite (IH1 x c c' Hc), (IH2 x c c' Hc). reflexivity.
  - intros x c c' Hc. apply IH. intros y Hy. apply Hc.
    eapply Reaches_trans; [exact Hy | apply Reaches_setCapture].
  - exact IH.
  - intros x c c' Hc. apply repeatMatcher_local; assumption.
Qed.

(** Fuel beyond [min + (length input - endIndex x)] is never used. *)
Lemma repeatMatcher_fuel (m : Matcher) (parens : list nat) :
  Local input m ->
  forall fuel1 fuel2 min max x c,
    endIndex x <= List.length input ->
    min + (List.length input - endIndex x) < fuel1 ->
    min + (List.length input - endIndex x) < fuel2 ->
    repeatMatcher fuel1 m parens min max x c = repeatMatcher fuel2 m parens min max x c.
Proof.
  intros Hm. induction fuel1 as [| fuel1 IH]; intros fuel2 min max x c Hx H1 H2;
    [lia |].
  destruct fuel2 as [| fuel2]; [lia |]. simpl.
  assert (Hiter :
            m (clearCaptures parens x)
              (fun y => if (min =? 0) && (endIndex y =? endIndex x) then None
                        else repeatMatcher fuel1 m parens (pred min) (option_map pred max) y c)
            = m (clearCaptures parens x)
                (fun y => if (min =? 0) && (endIndex y =? endIndex x) then None
                          else repeatMatcher fuel2 m parens (pred min) (option_map pred max) y c)).
  { apply Hm. intros y Hy.
    destruct (Reaches_clearCaptures input parens x) as [_ Hend].
    destruct Hy as (Hle & Hin & _). rewrite Hend in Hle, Hin.
    specialize (Hin Hx).
    destruct (Nat.eqb_spec min 0) as [-> | Hmin]; simpl.
    - destruct (Nat.eqb_spec (endIndex y) (endIndex x)) as [| Hne]; [reflexivity |].
      apply IH; lia.
    - apply IH; lia. }
  rewrite Hiter. reflexivity.
Qed.

(** The fuel given to a quantifier by [compile] is enough: any larger amount
    gives the same outcome. *)
Lemma quantifier_fuel_enough (r : Regex) (min : nat) (max : option nat)
    (x : MatchState) (c : Continuation) (extra : nat) :
  endIndex x <= List.length input ->
  compile input icase (RQuant r min max) x c =
  repeatMatcher (min + List.length input + 2 + extra)
                (compile input icase r) (groups r) min max x c.
Proof.
  intros Hx. simpl. apply repeatMatcher_fuel; [apply compile_local | assumption | lia | lia].
Qed.

End FuelFacts.

Lemma scanFrom_bounds (input : list ascii) (icase : bool) (r : Regex) (ncap : nat) :
  forall n i res,
    scanFrom input icase r ncap n i = Some res -> i <= fst res <= i + n.
Proof.
  induction n as [| n IH]; intros i res; simpl;
    destruct (compile input icase r (mkState i (repeat None ncap)) (fun y => Some y))
      as [y |]; try discriminate; try (intros [= <-]; simpl; lia).
  intros Hres. apply IH in Hres. lia.
Qed.

(** A match found from [from] starts at or after [from] and ends inside the
    text. *)
Lemma execFrom_bounds (p : Pattern) (s : string) (from : nat) (m : MatchResult) :
  execFrom p s from = Some m ->
  from <= index m /\ index m <= lastIndex m /\ lastIndex m <= String.length s.
Proof.
  unfold execFrom. cbv zeta. rewrite length_list_ascii.
  destruct (Nat.ltb_spec (String.length s) from) as [| Hfrom]; [discriminate |].
  destruct (scanFrom _ _ _ _ _ _) as [[i y] |] eqn:Hscan; [| discriminate].
  intros [= <-]. simpl.
  pose proof (scanFrom_bounds _ _ _ _ _ _ _ Hscan) as Hi.
  apply scanFrom_inv in Hscan. simpl in Hscan, Hi.
  destruct (compile_forward _ _ _ _ _ _ Hscan) as (y' & [= <-] & Hle & Hin & _).
  simpl in Hle, Hin. rewrite length_list_ascii in Hin. lia.
Qed.

Lemma execFrom_past_end (p : Pattern) (s : string) (from : nat) :
  String.length s < from -> execFrom p s from = None.
Proof.
  intros Hfrom. unfold execFrom. cbv zeta. rewrite length_list_ascii.
  destruct (Nat.ltb_spec (String.length s) from); [reflexivity | lia].
Qed.

(** The fuel of the global [match] loop is enough. *)
Lemma matchAllFrom_fuel (p : Pattern) (s : string) :
  forall fuel1 fuel2 from,
    String.length s + 1 - from <= fuel1 ->
    String.length s + 1 - from <= fuel2 ->
    matchAllFrom fuel1 p s from = matchAllFrom fuel2 p s from.
Proof.
  induction fuel1 as [| fuel1 IH]; intros fuel2 from H1 H2.
  - destruct fuel2; simpl; [reflexivity |].
    rewrite execFrom_past_end by lia. reflexivity.
  - destruct fuel2 as [| fuel2]; simpl.
    + rewrite execFrom_past_end by lia. reflexivity.
    + destruct (execFrom p s from) as [m |] eqn:Hm; [| reflexivity].
      apply execFrom_bounds in Hm. f_equal.
      destruct (Nat.eqb_spec (lastIndex m) (index m)); apply IH; lia.
Qed.

Lemma matchAll_fuel_enough (p : Pattern) (s : string) (extra : nat) :
  matchAll p s = matchAllFrom (S (String.length s) + extra) p s 0.
Proof. unfold matchAll. apply matchAllFrom_fuel; lia. Qed.

(** So is the fuel of the global [replace] loop. *)
Lemma replaceFrom_fuel (p : Pattern) (s repl : string) :
  forall fuel1 fuel2 from srcPos,
    String.length s + 1 - from <= fuel1 ->
    String.length s + 1 - from <= fuel2 ->
    replaceFrom fuel1 p s repl from srcPos = replaceFrom fuel2 p s repl from srcPos.
Proof.
  induction fuel1 as [| fuel1 IH]; intros fuel2 from srcPos H1 H2.
  - destruct fuel2; simpl; [reflexivity |].
    rewrite execFrom_past_end by lia. reflexivity.
  - destruct fuel2 as [| fuel2]; simpl.
    + rewrite execFrom_past_end by lia. reflexivity.
    + destruct (execFrom p s from) as [m |] eqn:Hm; [| reflexivity].
      apply execFrom_bounds in Hm. do 2 f_equal.
      destruct (Nat.eqb_spec (lastIndex m) (index m)); apply IH; lia.
Qed.

(** *** The confidence scorer *)

Set Warnings "-inexact-float".

(** C1. For every raw result and every category the confidence score lies in
    [0, 1]: it is not negative and not above 1, whichever of the four boosts
    apply (the base is 0.6, and the final minimum cuts the sum at 1). *)
Theorem calculateConfidence_in_unit_interval (result : RawResult) (category : string) :
  (0 <=? calculateConfidence result category)%float = true /\
  (calculateConfidence result category <=? 1)%float = true.
Proof.
  unfold calculateConfidence.
  destruct (domainBoost _), (categoryBoost _ _), (keywordBoost _),
           (containsDatePattern _); vm_compute; split; reflexivity.
Qed.

Set Warnings "+inexact-float".

(** *** The classifier *)

Lemma existsb_test_iff (patterns : list Pattern) (text : string) :
  existsb (fun pattern => test pattern text) patterns = true <->
  exists pattern, In pattern patterns /\ test pattern text = true.
Proof. apply existsb_exists. Qed.

Lemma isEventLike_iff (result : RawResult) :
  isEventLike result = true <->
  (exists keyword, In keyword eventKeywords /\
                   includes (searchText result) keyword = true) \/
  containsDatePattern (searchText result) = true \/
  containsVenuePattern (searchText result) = true.
Proof.
  unfold isEventLike. cbv zeta.
  rewrite !orb_true_iff, existsb_exists. tauto.
Qed.

Lemma charMatcher_inv (input : list ascii) (test : ascii -> bool)
    (x : MatchState) (c : Continuation) (z : MatchState) :
  charMatcher input test x c = Some z ->
  exists ch, In ch input /\ test ch = true.
Proof.
  unfold charMatcher.
  destruct (nth_error input (endIndex x)) as [ch |] eqn:Hch; [| discriminate].
  destruct (test ch) eqn:Htest; [| discriminate].
  intros _. exists ch. split; [eapply nth_error_In; eassumption | assumption].
Qed.

Lemma toLowerChar_not_upper (c : ascii) : isUpperAlpha (toLowerChar c) = false.
Proof.
  unfold toLowerChar. destruct (isUpperAlpha c) eqn:Hc; [| assumption].
  unfold isUpperAlpha, code in *.
  apply andb_true_iff in Hc. destruct Hc as [Hlo Hhi].
  apply Nat.leb_le in Hlo, Hhi.
  rewrite nat_ascii_embedding by lia.
  apply andb_false_iff. right. apply Nat.leb_gt. lia.
Qed.

Lemma toLowerCase_no_upper (s : string) (ch : ascii) :
  In ch (list_ascii_of_string (toLowerCase s)) -> isUpperAlpha ch = false.
Proof.
  induction s as [| c s IH]; simpl; [intros [] |].
  intros [<- | Hin]; [apply toLowerChar_not_upper | now apply IH].
Qed.

Lemma list_ascii_app (s t : string) :
  list_ascii_of_string (s ++ t) = list_ascii_of_string s ++ list_ascii_of_string t.
Proof. induction s as [| c s IH]; simpl; [reflexivity | now rewrite IH]. Qed.

Lemma searchText_no_upper (result : RawResult) (ch : ascii) :
  In ch (list_ascii_of_string (searchText result)) -> isUpperAlpha ch = false.
Proof.
  unfold searchText. cbv zeta. rewrite !list_ascii_app, !in_app_iff.
  intros [H | [H | [H | [H | [H | [H | H]]]]]];
    try (eapply toLowerCase_no_upper; eassumption);
    destruct H as [<- | []]; reflexivity.
Qed.

(** The first venue pattern of the classifier is case-sensitive and asks for
    a capital letter, so it needs one in the text. *)
Lemma atPlace_needs_capital (text : string) :
  test ContainsVenue.atPlace text = true ->
  exists ch, In ch (list_ascii_of_string text) /\ isUpperAlpha ch = true.
Proof.
  unfold test, exec, execFrom. cbv zeta.
  destruct (_ <? 0); [discriminate |].
  destruct (scanFrom _ _ _ _ _ _) as [[i y] |] eqn:Hscan; [| discriminate].
  intros _. apply scanFrom_inv in Hscan. cbn [fst snd] in Hscan.
  change (body ContainsVenue.atPlace) with
    (RSeq RWordBoundary
       (RSeq (RGroup 1 (alts [lit "at"; lit "@"]))
          (RSeq (plus RSpace)
             (RSeq (RClass false [CaRange "A" "Z"])
                (RSeq (plus (RClass false lettersAndSpace)) RWordBoundary))))) in Hscan.
  apply seq_forward in Hscan. destruct Hscan as (y1 & Hscan & _).
  apply seq_forward in Hscan. destruct Hscan as (y2 & Hscan & _).
  apply seq_forward in Hscan. destruct Hscan as (y3 & Hscan & _).
  cbn [compile] in Hscan.
  apply charMatcher_inv in Hscan. destruct Hscan as (ch & Hin & Hch).
  exists ch. split; [assumption |].
  cbn in Hch. rewrite orb_false_r in Hch. exact Hch.
Qed.

(** On the lower-cased text of the classifier that pattern never matches. *)
Lemma atPlace_dead_in_filter (result : RawResult) :
  test ContainsVenue.atPlace (searchText result) = false.
Proof.
  destruct (test ContainsVenue.atPlace (searchText result)) eqn:Htest; [| reflexivity].
  apply atPlace_needs_capital in Htest. destruct Htest as (ch & Hin & Hup).
  apply searchText_no_upper in Hin. congruence.
Qed.

(** C3. The classifier is a disjunction over the combined (lower-cased) text
    of title, snippet, link and question: a result is kept exactly when some
    keyword is a substring of that text, or some date pattern matches it, or
    some venue pattern matches it; survivors keep their order; and a result
    whose only signal is a date pattern is kept. *)
Theorem filterEventResults_is_disjunction :
  (forall results result,
      In result (filterEventResults results) <->
      In result results /\
      ((exists keyword, In keyword eventKeywords /\
                        includes (searchText result) keyword = true) \/
       (exists pattern, In pattern ContainsDate.datePatterns /\
                        test pattern (searchText result) = true) \/
       (exists pattern, In pattern ContainsVenue.venuePatterns /\
                        test pattern (searchText result) = true))) /\
  (forall results, filterEventResults results = filter isEventLike results) /\
  (existsb (fun keyword => includes (searchText Samples.dateOnly) keyword)
           eventKeywords = false /\
   containsVenuePattern (searchText Samples.dateOnly) = false /\
   containsDatePattern (searchText Samples.dateOnly) = true /\
   filterEventResults [Samples.dateOnly] = [Samples.dateOnly]).
Proof.
  split; [| split].
  - intros results result. unfold filterEventResults.
    rewrite filter_In, isEventLike_iff.
    unfold containsDatePattern, containsVenuePattern.
    rewrite !existsb_test_iff. tauto.
  - reflexivity.
  - vm_compute. repeat split; reflexivity.
Qed.

(** The capitalised-place pattern matches the title as written, but the
    classifier sees the lower-cased text and drops the result. *)
Lemma atBlueNote_not_event_like :
  containsVenuePattern "Live at Blue Note" = true /\
  isEventLike Samples.atBlueNote = false.
Proof. vm_compute. split; reflexivity. Qed.

(** *** The scorer does not read the question *)

(** C10. Two raw results that differ only in their question get the same
    confidence for every category: the scorer's text is built from title,
    snippet and link.  The classifier does read the question: a "people also
    ask" entry can pass the filter on its question alone. *)
Theorem calculateConfidence_ignores_question
    (t s l q1 q2 : option string) (category : string) :
  calculateConfidence (mkRaw t s l q1) category =
  calculateConfidence (mkRaw t s l q2) category /\
  confidenceText (mkRaw t s l q1) = confidenceText (mkRaw t s l q2) /\
  (isEventLike Samples.faq = true /\ isEventLike Samples.faqNoQuestion = false).
Proof.
  split; [reflexivity | split; [reflexivity |]].
  vm_compute. split; reflexivity.
Qed.

(** *** The ticket URL *)

Lemma firstTicketUrl_found (before after : list string) (url : string) :
  (forall v, In v before -> mentionsTicketDomain v = false) ->
  mentionsTicketDomain url = true ->
  firstTicketUrl (before ++ url :: after) = Some url.
Proof.
  induction before as [| v before IH]; intros Hbefore Hurl; simpl.
  - now rewrite Hurl.
  - rewrite (Hbefore v) by now left.
    apply IH; [| assumption]. intros w Hw. apply Hbefore. now right.
Qed.

Lemma firstTicketUrl_none (urls : list string) :
  (forall v, In v urls -> mentionsTicketDomain v = false) ->
  firstTicketUrl urls = None.
Proof.
  induction urls as [| v urls IH]; intros Hall; simpl.
  - reflexivity.
  - rewrite (Hall v) by now left.
    apply IH. intros w Hw. apply Hall. now right.
Qed.

Lemma eventUrl_test (eventUrl : option string) :
  existsb (fun domain => truthy eventUrl && includes (spliced eventUrl) domain)
          ticketDomains =
  truthy eventUrl && mentionsTicketDomain (spliced eventUrl).
Proof.
  unfold mentionsTicketDomain.
  destruct (truthy eventUrl); simpl; [reflexivity |].
  induction ticketDomains; simpl; auto.
Qed.

(** C7, as amended.  The test is substring containment, not a comparison of
    domains: [eventUrl] is returned unchanged when it is present, non-empty
    and contains one of the four listed domain names anywhere; otherwise the
    answer is the first URL of the snippet (a maximal run of non-blank
    characters after [http://] or [https://], in order of appearance) that
    contains a listed name; otherwise none. *)
Theorem extractTicketUrl_by_containment (eventUrl : option string) (snippet : string) :
  (truthy eventUrl && mentionsTicketDomain (spliced eventUrl) = true ->
   extractTicketUrl eventUrl snippet = eventUrl) /\
  (truthy eventUrl && mentionsTicketDomain (spliced eventUrl) = false ->
   (forall before url after,
       matchAll urlPattern snippet = before ++ url :: after ->
       (forall v, In v before -> mentionsTicketDomain v = false) ->
       mentionsTicketDomain url = true ->
       extractTicketUrl eventUrl snippet = Some url) /\
   ((forall v, In v (matchAll urlPattern snippet) -> mentionsTicketDomain v = false) ->
    extractTicketUrl eventUrl snippet = None)).
Proof.
  unfold extractTicketUrl. rewrite eventUrl_test.
  split; intros ->; [reflexivity |].
  cbv zeta. split.
  - intros before url after -> Hbefore Hurl. now apply firstTicketUrl_found.
  - apply firstTicketUrl_none.
Qed.

Lemma extractTicketUrl_by_containment_witness :
  extractTicketUrl (Some "https://www.eventbrite.com/e/42") "no links" =
    Some "https://www.eventbrite.com/e/42" /\
  extractTicketUrl (Some "https://example.org/gig")
    "Book: http://blog.example.org/x or https://www.ticketmaster.com/e/7 today" =
    Some "https://www.ticketmaster.com/e/7" /\
  extractTicketUrl None "see http://example.org" = None.
Proof.
  split; [| split].
  - apply (proj1 (extractTicketUrl_by_containment
                    (Some "https://www.eventbrite.com/e/42") "no links")).
    vm_compute. reflexivity.
  - apply (proj1 (proj2 (extractTicketUrl_by_containment
                           (Some "https://example.org/gig")
      "Book: http://blog.example.org/x or https://www.ticketmaster.com/e/7 today")
                   ltac:(vm_compute; reflexivity))
             ["http://blog.example.org/x"] "https://www.ticketmaster.com/e/7" []).
    + vm_compute. reflexivity.
    + intros v [<- | []]. vm_compute. reflexivity.
    + vm_compute. reflexivity.
  - apply (proj2 (proj2 (extractTicketUrl_by_containment None "see http://example.org")
                   ltac:(vm_compute; reflexivity))).
    intros v Hv. vm_compute in Hv. destruct Hv as [<- | []].
    vm_compute. reflexivity.
Defined.

(** C7 as stated fails: a link whose domain is not on the list but whose
    query string mentions a listed name is returned, although the snippet
    holds a URL on a listed domain. *)
Lemma extractTicketUrl_not_by_domain :
  SpecReading.domainOf "https://example.com/?ref=eventbrite.com" = "example.com" /\
  SpecReading.domainListed ticketDomains "https://example.com/?ref=eventbrite.com" = false /\
  SpecReading.domainListed ticketDomains "https://ticketmaster.com/e/1" = true /\
  matchAll urlPattern "Buy at https://ticketmaster.com/e/1 now" =
    ["https://ticketmaster.com/e/1"] /\
  extractTicketUrl (Some "https://example.com/?ref=eventbrite.com")
                   "Buy at https://ticketmaster.com/e/1 now" =
    Some "https://example.com/?ref=eventbrite.com".
Proof. vm_compute. repeat split; reflexivity. Qed.

(** *** The orchestrator *)

Lemma searchEvents_always_returns (host : Host) (apiKey : string) (options : SearchOptions) :
  exists envelope, searchEvents host apiKey options = Normal envelope.
Proof.
  unfold searchEvents.
  destruct (searchEventsTry host apiKey options); eexists; reflexivity.
Qed.

Lemma searchEventsTry_failure (host : Host) (apiKey : string) (options : SearchOptions)
    (message : string) :
  TransportFailure (fetch host (buildRequest apiKey options)) message ->
  searchEventsTry host apiKey options = Throw message.
Proof.
  unfold searchEventsTry. cbv zeta.
  intros Hfail. inversion Hfail as
    [m Hout | m Hout | response Hok Hout | response m Hok Hjson Hout
     | response data m Hok Hjson Herr Hne Hout]; subst; try reflexivity.
  - now rewrite Hok.
  - now rewrite Hok, Hjson.
  - rewrite Hok, Hjson. simpl. unfold truthy. rewrite Herr.
    destruct (String.eqb_spec message EmptyString) as [-> |]; [contradiction | reflexivity].
Qed.

(** C2. Whenever the provider call fails (the request is rejected by the
    network, aborted by the timeout, answered with a non-2xx status, answered
    with a body that is not JSON, or answered with an [error] field), the
    invocation completes normally, never by a throw, with the failure
    envelope: [success = false], no events, [count = 0], and the message of
    the failure as [error]. *)
Theorem searchEvents_transport_failure (host : Host) (apiKey : string)
    (options : SearchOptions) (message : string) :
  TransportFailure (fetch host (buildRequest apiKey options)) message ->
  searchEvents host apiKey options =
  Normal {| Envelope.success := false;
            Envelope.error := Some message;
            Envelope.events := [];
            Envelope.count := 0;
            Envelope.processingTime := (laterTime host - startTime host)%Z;
            Envelope.source := "serper";
            Envelope.metadata := None |}.
Proof.
  intros Hfail. unfold searchEvents.
  now rewrite (searchEventsTry_failure host apiKey options message Hfail).
Qed.

Lemma searchEvents_transport_failure_witness :
  searchEvents (Samples.hostAnswering (Aborted "This operation was aborted"))
               "key" (Samples.musicInSF None) =
  Normal {| Envelope.success := false;
            Envelope.error := Some "This operation was aborted";
            Envelope.events := [];
            Envelope.count := 0;
            Envelope.processingTime := 250%Z;
            Envelope.source := "serper";
            Envelope.metadata := None |}.
Proof.
  apply (searchEvents_transport_failure
           (Samples.hostAnswering (Aborted "This operation was aborted"))
           "key" (Samples.musicInSF None) "This operation was aborted").
  apply TimedOut.
Defined.

(** Without a transport failure the envelope reports success. *)
Lemma searchEvents_success (host : Host) (apiKey : string) (options : SearchOptions) :
  (forall message,
      ~ TransportFailure (fetch host (buildRequest apiKey options)) message) ->
  exists envelope,
    searchEvents host apiKey options = Normal envelope /\
    Envelope.success envelope = true /\ Envelope.error envelope = None.
Proof.
  intros Hnone. unfold searchEvents, searchEventsTry. cbv zeta.
  destruct (fetch host (buildRequest apiKey options)) as [m | m | response] eqn:Hout.
  - exfalso. apply (Hnone m). constructor.
  - exfalso. apply (Hnone m). constructor.
  - destruct (ok response) eqn:Hok; simpl.
    + destruct (json response) as [m | data] eqn:Hjson.
      * exfalso. apply (Hnone m). now apply MalformedJson.
      * destruct (truthy (dataError data)) eqn:Herr.
        -- exfalso. unfold truthy in Herr.
           destruct (dataError data) as [e |] eqn:He; [| discriminate].
           apply (Hnone e). apply (ProviderError response data e); auto.
           intros ->. discriminate.
        -- eexists. repeat split.
    + exfalso. eapply Hnone. now apply BadStatus.
Qed.

Lemma compact_length {A : Type} (l : list (option A)) :
  List.length (compact l) <= List.length l.
Proof.
  induction l as [| [a |] l IH]; simpl; lia.
Qed.

Lemma transformFrom_length (host : Host) (category : string) (results : list RawResult) :
  forall n, List.length (transformFrom host category n results) = List.length results.
Proof.
  induction results as [| r results IH]; intros n; simpl; [reflexivity |].
  now rewrite IH.
Qed.

Lemma sliceTo_length {A : Type} (l : list A) (limit : Z) :
  (0 <= limit)%Z -> (Z.of_nat (List.length (sliceTo l limit)) <= limit)%Z.
Proof.
  intros Hlimit. unfold sliceTo.
  destruct (Z.ltb_spec limit 0) as [Hneg | _]; [lia |].
  rewrite length_firstn. lia.
Qed.

(** C8. For a limit that is not negative (the interface asks for a limit of
    at least 1; an absent limit is 10) an invocation returns at most [limit]
    events, however many candidates pass the classifier, and [count] is the
    number of events returned. *)
Theorem searchEvents_respects_limit (host : Host) (apiKey : string)
    (options : SearchOptions) :
  (0 <= effectiveLimit options)%Z ->
  exists envelope,
    searchEvents host apiKey options = Normal envelope /\
    (Z.of_nat (List.length (Envelope.events envelope)) <= effectiveLimit options)%Z /\
    Envelope.count envelope = List.length (Envelope.events envelope).
Proof.
  intros Hlimit. unfold searchEvents, searchEventsTry. cbv zeta.
  destruct (fetch host (buildRequest apiKey options)) as [m | m | response];
    try (eexists; repeat split; simpl; lia).
  destruct (negb (ok response)); [eexists; repeat split; simpl; lia |].
  destruct (json response) as [m | data]; [eexists; repeat split; simpl; lia |].
  destruct (truthy (dataError data)); [eexists; repeat split; simpl; lia |].
  eexists. split; [reflexivity |]. split; [| reflexivity].
  cbn [Envelope.events].
  pose proof (compact_length
                (transformFrom host (optCategory options) 0
                   (candidates data (effectiveLimit options)))) as Hc.
  rewrite transformFrom_length in Hc.
  pose proof (sliceTo_length
                (filterEventResults (orEmpty (organic data) ++ orEmpty (peopleAlsoAsk data)))
                (effectiveLimit options) Hlimit) as Hs.
  unfold candidates in *. cbv zeta in *. lia.
Qed.

Lemma searchEvents_respects_limit_witness :
  exists envelope,
    searchEvents (Samples.hostAnswering (Samples.okResponse Samples.threeHits))
                 "key" (Samples.musicInSF (Some 2%Z)) = Normal envelope /\
    (Z.of_nat (List.length (Envelope.events envelope)) <= 2)%Z /\
    Envelope.count envelope = List.length (Envelope.events envelope).
Proof.
  apply (searchEvents_respects_limit
           (Samples.hostAnswering (Samples.okResponse Samples.threeHits))
           "key" (Samples.musicInSF (Some 2%Z))).
  unfold effectiveLimit, Samples.musicInSF. simpl. lia.
Defined.

(** *** The normalizer *)

Lemma transformFrom_app (host : Host) (category : string) (pre post : list RawResult) :
  forall n,
    transformFrom host category n (pre ++ post) =
    transformFrom host category n pre ++
    transformFrom host category (n + List.length pre) post.
Proof.
  induction pre as [| r pre IH]; intros n; simpl.
  - now rewrite Nat.add_0_r.
  - rewrite IH.
    replace (S n + List.length pre) with (n + S (List.length pre)) by lia.
    reflexivity.
Qed.

Lemma compact_app {A : Type} (l1 l2 : list (option A)) :
  compact (l1 ++ l2) = compact l1 ++ compact l2.
Proof.
  induction l1 as [| [a |] l1 IH]; simpl; [reflexivity | now rewrite IH | assumption].
Qed.

Lemma transformEvent_untitled (parse : DateParser) (now : Now)
    (result : RawResult) (category : string) :
  truthy (title result) = false ->
  truthy (question result) = false ->
  transformEvent parse now result category = None.
Proof.
  intros Htitle Hquestion. unfold transformEvent, orElseOpt.
  rewrite Htitle. cbv zeta. now rewrite Hquestion.
Qed.

Lemma batch_skips_untitled (host : Host) (category : string)
    (result : RawResult) (before after : list RawResult) (n : nat) :
  truthy (title result) = false ->
  truthy (question result) = false ->
  compact (transformFrom host category n (before ++ result :: after)) =
  compact (transformFrom host category n before) ++
  compact (transformFrom host category (n + S (List.length before)) after).
Proof.
  intros Htitle Hquestion.
  rewrite transformFrom_app, compact_app. simpl.
  rewrite (transformEvent_untitled _ _ _ _ Htitle Hquestion). simpl.
  now rewrite Nat.add_succ_r.
Qed.

(** C9. A raw result with neither a title nor a question (absent or empty)
    is dropped by the normalizer without an error: [transformEvent] returns
    [null] for it; and when it is among the candidates of a successful
    invocation, the invocation still succeeds and its events are those of the
    candidates before it followed by those of the candidates after it. *)
Theorem transformEvent_drops_untitled (host : Host) (apiKey : string)
    (options : SearchOptions) (response : Response) (data : SerperData)
    (result : RawResult) (before after : list RawResult) :
  truthy (title result) = false ->
  truthy (question result) = false ->
  fetch host (buildRequest apiKey options) = Responded response ->
  ok response = true ->
  json response = Json data ->
  truthy (dataError data) = false ->
  candidates data (effectiveLimit options) = before ++ result :: after ->
  (forall parse now category, transformEvent parse now result category = None) /\
  exists envelope,
    searchEvents host apiKey options = Normal envelope /\
    Envelope.success envelope = true /\
    Envelope.error envelope = None /\
    Envelope.events envelope =
      compact (transformFrom host (optCategory options) 0 before) ++
      compact (transformFrom host (optCategory options) (S (List.length before)) after).
Proof.
  intros Htitle Hquestion Hfetch Hok Hjson Herr Hcand.
  split.
  - intros parse now category. now apply transformEvent_untitled.
  - unfold searchEvents, searchEventsTry. cbv zeta.
    rewrite Hfetch, Hok, Hjson, Herr, Hcand. simpl negb. cbv iota.
    eexists. split; [reflexivity |]. cbn [Envelope.success Envelope.error Envelope.events].
    repeat split.
    now rewrite (batch_skips_untitled host _ result before after 0 Htitle Hquestion).
Qed.

Lemma transformEvent_drops_untitled_witness :
  (forall parse now category,
      transformEvent parse now Samples.untitled category = None) /\
  exists envelope,
    searchEvents (Samples.hostAnswering (Samples.okResponse Samples.threeHits))
                 "key" (Samples.musicInSF None) = Normal envelope /\
    Envelope.success envelope = true /\
    Envelope.error envelope = None /\
    Envelope.events envelope =
      compact (transformFrom (Samples.hostAnswering (Samples.okResponse Samples.threeHits))
                 "music" 0 [Samples.jazz]) ++
      compact (transformFrom (Samples.hostAnswering (Samples.okResponse Samples.threeHits))
                 "music" 2 [Samples.dateOnly; Samples.faq]).
Proof.
  apply (transformEvent_drops_untitled
           (Samples.hostAnswering (Samples.okResponse Samples.threeHits))
           "key" (Samples.musicInSF None)
           {| ok := true; status := 200; text := EmptyString; json := Json Samples.threeHits |}
           Samples.threeHits Samples.untitled
           [Samples.jazz] [Samples.dateOnly; Samples.faq]);
    vm_compute; reflexivity.
Defined.

(** *** The venue extractor *)

Lemma venueLoop_skip (text : string) (before rest : list Pattern) :
  (forall q, In q before -> exec q text = None) ->
  venueLoop (before ++ rest) text = venueLoop rest text.
Proof.
  induction before as [| q before IH]; intros Hnone; simpl; [reflexivity |].
  rewrite (Hnone q) by now left.
  apply IH. intros q' Hq'. apply Hnone. now right.
Qed.

(** C6. [extractVenue] tries its three patterns in order.  When none of them
    matches the answer is exactly "See Event Page".  Otherwise, for the first
    pattern in the list that matches, group 1 of that match is a non-empty
    piece [text[b..e)] of the input and the answer is that piece, trimmed and
    otherwise unchanged. *)
Theorem extractVenue_first_capture_or_sentinel (text : string) :
  ((forall p, In p ExtractVenue.venuePatterns -> exec p text = None) ->
   extractVenue text = "See Event Page") /\
  (forall before p after m,
      ExtractVenue.venuePatterns = before ++ p :: after ->
      (forall q, In q before -> exec q text = None) ->
      exec p text = Some m ->
      exists b e,
        b < e /\ e <= String.length text /\
        group m 1 = Some (slice text b e) /\
        extractVenue text = trim (slice text b e)).
Proof.
  split.
  - intros Hnone. unfold extractVenue.
    rewrite <- (app_nil_r ExtractVenue.venuePatterns).
    rewrite venueLoop_skip by assumption. reflexivity.
  - intros before p after m Hsplit Hbefore Hm.
    assert (Hin : In p ExtractVenue.venuePatterns).
    { rewrite Hsplit. apply in_or_app. right. now left. }
    destruct (venue_patterns_capture p text m Hin Hm) as (b & e & Hbe & He & Hg).
    exists b, e. repeat split; try assumption.
    unfold extractVenue. rewrite Hsplit, venueLoop_skip by assumption.
    simpl. rewrite Hm, Hg.
    rewrite (slice_nonempty text b e Hbe He). reflexivity.
Qed.

Lemma extractVenue_first_capture_or_sentinel_witness :
  extractVenue "Doors open at nine" = "See Event Page" /\
  exists b e,
    b < e /\ e <= String.length "Live at The Fillmore Hall tonight" /\
    group {| index := 5; lastIndex := 25; matched := "at The Fillmore Hall";
             groupTexts := [Some "The Fillmore Hall"] |} 1
      = Some (slice "Live at The Fillmore Hall tonight" b e) /\
    extractVenue "Live at The Fillmore Hall tonight"
      = trim (slice "Live at The Fillmore Hall tonight" b e).
Proof.
  split.
  - apply (proj1 (extractVenue_first_capture_or_sentinel "Doors open at nine")).
    intros p Hp. vm_compute in Hp.
    destruct Hp as [<- | [<- | [<- | []]]]; vm_compute; reflexivity.
  - apply (proj2 (extractVenue_first_capture_or_sentinel
                    "Live at The Fillmore Hall tonight")
             [] ExtractVenue.atVenue
             [ExtractVenue.bareVenue; ExtractVenue.labelled]).
    + reflexivity.
    + intros q [].
    + vm_compute. reflexivity.
Defined.

(** *** The date extractor *)

Lemma extractLoop_single_day (parse : DateParser) (now : Now) (text : string)
    (patterns : list Pattern) (acc : DateSpan) :
  endDate acc = startDate acc ->
  endDate (extractLoop parse now patterns text acc) =
  startDate (extractLoop parse now patterns text acc).
Proof.
  intros Hacc. induction patterns as [| p patterns IH]; simpl; [assumption |].
  destruct (exec p text) as [m |]; [| assumption].
  destruct (dateStr now p m) as [str |]; [| assumption].
  destruct (parse str); [reflexivity | assumption].
Qed.

(** The start and end dates always coincide. *)
Lemma extractDateInfo_single_day (parse : DateParser) (now : Now) (text : string) :
  endDate (extractDateInfo parse now text) = startDate (extractDateInfo parse now text).
Proof. unfold extractDateInfo. now apply extractLoop_single_day. Qed.

Lemma extractLoop_skip (parse : DateParser) (now : Now) (text : string)
    (before rest : list Pattern) (acc : DateSpan) :
  (forall q, In q before -> passedOver parse now text q) ->
  extractLoop parse now (before ++ rest) text acc = extractLoop parse now rest text acc.
Proof.
  induction before as [| q before IH]; intros Hskip; simpl; [reflexivity |].
  assert (Hrest : forall q', In q' before -> passedOver parse now text q')
    by (intros q' Hq'; apply Hskip; now right).
  destruct (exec q text) as [m |] eqn:Hm; [| now apply IH].
  destruct (dateStr now q m) as [str |] eqn:Hstr; [| now apply IH].
  rewrite (Hskip q (or_introl eq_refl) m str Hm Hstr). now apply IH.
Qed.

(** With no match, or no valid parse, both dates are the extraction time. *)
Lemma extractDateInfo_fallback (parse : DateParser) (now : Now) (text : string) :
  (forall q, In q ExtractDate.datePatterns -> passedOver parse now text q) ->
  extractDateInfo parse now text = mkSpan (nowISO now) (nowISO now).
Proof.
  intros Hskip. unfold extractDateInfo. cbv zeta.
  rewrite <- (app_nil_r ExtractDate.datePatterns).
  now rewrite extractLoop_skip.
Qed.

(** The first pattern, in list order, whose date string is valid decides. *)
Lemma extractDateInfo_first_valid (parse : DateParser) (now : Now) (text : string)
    (before after : list Pattern) (p : Pattern) (m : MatchResult) (str iso : string) :
  ExtractDate.datePatterns = before ++ p :: after ->
  (forall q, In q before -> passedOver parse now text q) ->
  exec p text = Some m ->
  dateStr now p m = Some str ->
  parse str = Some iso ->
  extractDateInfo parse now text = mkSpan iso iso.
Proof.
  intros Hsplit Hskip Hm Hstr Hiso. unfold extractDateInfo. cbv zeta.
  rewrite Hsplit, extractLoop_skip by assumption.
  simpl. now rewrite Hm, Hstr, Hiso.
Qed.

(** Which of the three interpretations each pattern gets from the tests on
    [pattern.source]: the ordinal pattern's source also contains
    [january|february], and the slash pattern's source has a parenthesis
    between [\d{1,2}] and the escaped slash. *)
Lemma source_tests :
  includes (source ExtractDate.monthDayYear) "january|february" = true /\
  includes (source ExtractDate.slashed) "january|february" = false /\
  includes (source ExtractDate.slashed) "\d{1,2}\/" = false /\
  includes (source ExtractDate.ordinal) "january|february" = true.
Proof. vm_compute. repeat split; reflexivity. Qed.

(** For the month-name pattern a missing year is the current year. *)
Lemma dateStr_monthDayYear (now : Now) (m : MatchResult) :
  dateStr now ExtractDate.monthDayYear m =
  Some (spliced (group m 1) ++ " " ++ spliced (group m 2) ++ ", " ++
        orElse (group m 3) (ofN (nowFullYear now)))%string.
Proof.
  unfold dateStr. destruct source_tests as (-> & _). reflexivity.
Qed.

(** The slash pattern gets the day-and-month interpretation: the year group
    is read as the month and the current year replaces the year. *)
Lemma dateStr_slashed (now : Now) (m : MatchResult) :
  dateStr now ExtractDate.slashed m =
  Some (spliced (group m 3) ++ " " ++ spliced (group m 1) ++ ", " ++
        ofN (nowFullYear now))%string.
Proof.
  unfold dateStr. destruct source_tests as (_ & -> & -> & _). reflexivity.
Qed.

(** The ordinal pattern gets the month-name interpretation: the day is read
    as the month, the suffix as the day and the month name as the year. *)
Lemma dateStr_ordinal (now : Now) (m : MatchResult) :
  dateStr now ExtractDate.ordinal m =
  Some (spliced (group m 1) ++ " " ++ spliced (group m 2) ++ ", " ++
        orElse (group m 3) (ofN (nowFullYear now)))%string.
Proof.
  unfold dateStr. destruct source_tests as (_ & _ & _ & ->). reflexivity.
Qed.

(** C4. The claim that a missing year defaults to the current year fails on
    the code for a day-and-month date: for "Party on 15th March" the string
    handed to the date parser is "15 th, March", with no year, and not
    "March 15, <current year>"; and for "Sale 3/4/2012" it is
    "2012 3, <current year>", the year of the text being read as the month.
    The result is what the parser says of those strings, or else the
    extraction time. *)
Theorem extractDateInfo_misreads_groups (parse : DateParser) (now : Now) :
  extractDateInfo parse now "Party on 15th March" =
    match parse "15 th, March" with
    | Some iso => mkSpan iso iso
    | None => mkSpan (nowISO now) (nowISO now)
    end /\
  extractDateInfo parse now "Sale 3/4/2012" =
    match parse ("2012 3, " ++ ofN (nowFullYear now))%string with
    | Some iso => mkSpan iso iso
    | None => mkSpan (nowISO now) (nowISO now)
    end.
Proof.
  split.
  - vm_compute. destruct (parse _); reflexivity.
  - unfold extractDateInfo, ExtractDate.datePatterns, extractLoop.
    replace (exec ExtractDate.monthDayYear "Sale 3/4/2012") with (@None MatchResult)
      by (vm_compute; reflexivity).
    replace (exec ExtractDate.slashed "Sale 3/4/2012")
      with (Some {| index := 5; lastIndex := 13; matched := "3/4/2012";
                    groupTexts := [Some "3"; Some "4"; Some "2012"] |})
      by (vm_compute; reflexivity).
    replace (exec ExtractDate.ordinal "Sale 3/4/2012") with (@None MatchResult)
      by (vm_compute; reflexivity).
    rewrite dateStr_slashed. cbv zeta. simpl.
    destruct (parse _); reflexivity.
Qed.

(** *** The scenario of the specification *)

Set Warnings "-inexact-float".

Lemma jazz_texts :
  (spliced (title Samples.jazz) ++ " " ++ orElse (snippet Samples.jazz) EmptyString)%string
    = Samples.jazzText /\
  exec ExtractDate.monthDayYear Samples.jazzText =
    Some {| index := 30; lastIndex := 44; matched := "March 15, 2025";
            groupTexts := [Some "March"; Some "15"; Some "2025"] |} /\
  map (fun p => exec p Samples.jazzText) ExtractVenue.venuePatterns = [None; None; None].
Proof. vm_compute. repeat split; reflexivity. Qed.

Lemma jazz_date (parse : DateParser) (now : Now) :
  extractDateInfo parse now Samples.jazzText =
  match parse "March 15, 2025" with
  | Some iso => mkSpan iso iso
  | None => mkSpan (nowISO now) (nowISO now)
  end.
Proof. vm_compute. destruct (parse _); reflexivity. Qed.

(** C5, as amended.  For the scenario's result and category "music", with a
    date parser that accepts "March 15, 2025": the classifier accepts the
    result; the venue is the sentinel "See Event Page" (no venue noun follows
    "at Blue Note"); the start and end dates are the parser's reading of
    "March 15, 2025"; the ticket URL is the link; the domain, keyword and date
    boosts apply and the category boost does not, and the confidence is the
    binary64 sum 0.6 + 0.2 + 0.1 + 0.05, which is 0.9500000000000001 and not
    below 0.95. *)
Theorem jazz_scenario (parse : DateParser) (now : Now) (iso : string) :
  parse "March 15, 2025" = Some iso ->
  isEventLike Samples.jazz = true /\
  exists event,
    transformEvent parse now Samples.jazz "music" = Some event /\
    Event.venue event = "See Event Page" /\
    Event.startDate event = iso /\
    Event.endDate event = iso /\
    Event.ticketUrl event = link Samples.jazz /\
    domainBoost (confidenceText Samples.jazz) = true /\
    categoryBoost (confidenceText Samples.jazz) "music" = false /\
    keywordBoost (confidenceText Samples.jazz) = true /\
    containsDatePattern (confidenceText Samples.jazz) = true /\
    Event.confidence event = (0.6 + 0.2 + 0.1 + 0.05)%float /\
    Event.confidence event = 0.9500000000000001%float /\
    (0.95 <=? Event.confidence event)%float = true.
Proof.
  intros Hparse. split; [vm_compute; reflexivity |].
  unfold transformEvent.
  replace (truthy (orElseOpt (title Samples.jazz) (question Samples.jazz))) with true
    by (vm_compute; reflexivity).
  cbv zeta. simpl negb. cbv iota.
  eexists. split; [reflexivity |].
  cbn [Event.venue Event.startDate Event.endDate Event.ticketUrl Event.confidence].
  replace (spliced (orElseOpt (title Samples.jazz) (question Samples.jazz)) ++ " " ++
           orElse (snippet Samples.jazz) EmptyString)%string
    with Samples.jazzText by (vm_compute; reflexivity).
  rewrite jazz_date, Hparse. cbn [startDate endDate].
  repeat split; vm_compute; reflexivity.
Qed.

Lemma jazz_scenario_witness :
  isEventLike Samples.jazz = true /\
  exists event,
    transformEvent Samples.echoParser Samples.newYear Samples.jazz "music" = Some event /\
    Event.venue event = "See Event Page" /\
    Event.startDate event = "parsed:March 15, 2025" /\
    Event.endDate event = "parsed:March 15, 2025" /\
    Event.ticketUrl event = link Samples.jazz /\
    domainBoost (confidenceText Samples.jazz) = true /\
    categoryBoost (confidenceText Samples.jazz) "music" = false /\
    keywordBoost (confidenceText Samples.jazz) = true /\
    containsDatePattern (confidenceText Samples.jazz) = true /\
    Event.confidence event = (0.6 + 0.2 + 0.1 + 0.05)%float /\
    Event.confidence event = 0.9500000000000001%float /\
    (0.95 <=? Event.confidence event)%float = true.
Proof.
  apply (jazz_scenario Samples.echoParser Samples.newYear "parsed:March 15, 2025").
  reflexivity.
Defined.

(** C5 as stated fails: the extracted venue does not contain "Blue Note",
    and the confidence is not the double 0.95. *)
Lemma jazz_venue_is_sentinel :
  extractVenue Samples.jazzText = "See Event Page" /\
  includes (extractVenue Samples.jazzText) "Blue Note" = false /\
  (forall parse now,
      option_map Event.venue (transformEvent parse now Samples.jazz "music")
      = Some "See Event Page") /\
  (calculateConfidence Samples.jazz "music" =? 0.95)%float = false.
Proof.
  repeat split; try intros parse now; vm_compute; reflexivity.
Qed.

Set Warnings "+inexact-float".

(* ------------------------------------------------------------------------- *)
(** ** Further properties of the client *)

Import SerperViews.

(** *** Substrings, lower-casing and trimming *)

Lemma string_app_assoc (a b c : string) : ((a ++ b) ++ c = a ++ (b ++ c))%string.
Proof. induction a as [| x a IH]; simpl; [reflexivity | now rewrite IH]. Qed.

Lemma string_app_nil_r (a : string) : (a ++ EmptyString)%string = a.
Proof. induction a as [| x a IH]; simpl; [reflexivity | now rewrite IH]. Qed.

Lemma prefix_iff (sub s : string) :
  String.prefix sub s = true <-> exists post, s = (sub ++ post)%string.
Proof.
  revert s. induction sub as [| c sub IH]; intros s; simpl.
  - split; [intros _; now exists s | intros _; destruct s; reflexivity].
  - destruct s as [| d s].
    + split; [discriminate | intros (post & H); discriminate].
    + simpl. destruct (ascii_dec c d) as [-> | Hne].
      * rewrite IH. split; intros (post & H); exists post; [now rewrite H | now injection H].
      * split; [discriminate | intros (post & H); injection H; congruence].
Qed.

(** [s.includes(sub)] holds exactly when [sub] occurs in [s]. *)
Lemma includes_iff (s sub : string) :
  includes s sub = true <-> exists pre post, s = (pre ++ sub ++ post)%string.
Proof.
  induction s as [| c s IH]; cbn [includes].
  - rewrite orb_false_r, prefix_iff. split.
    + intros (post & H). now exists EmptyString, post.
    + intros (pre & post & H). destruct pre; simpl in H.
      * now exists post.
      * discriminate.
  - rewrite orb_true_iff, prefix_iff, IH. split.
    + intros [(post & H) | (pre & post & H)].
      * now exists EmptyString, post.
      * exists (String c pre), post. simpl. now rewrite H.
    + intros (pre & post & H). destruct pre as [| d pre]; simpl in H.
      * left. now exists post.
      * right. injection H as _ H. now exists pre, post.
Qed.

Lemma includes_app_l (a b sub : string) :
  includes a sub = true -> includes (a ++ b) sub = true.
Proof.
  rewrite !includes_iff. intros (pre & post & ->).
  exists pre, (post ++ b)%string. now rewrite !string_app_assoc.
Qed.

Lemma includes_app_r (a b sub : string) :
  includes b sub = true -> includes (a ++ b) sub = true.
Proof.
  rewrite !includes_iff. intros (pre & post & ->).
  exists (a ++ pre)%string, post. now rewrite !string_app_assoc.
Qed.

Lemma includes_trans (s mid sub : string) :
  includes s mid = true -> includes mid sub = true -> includes s sub = true.
Proof.
  rewrite !includes_iff. intros (p1 & q1 & ->) (p2 & q2 & ->).
  exists (p1 ++ p2)%string, (q2 ++ q1)%string. now rewrite !string_app_assoc.
Qed.

Lemma includes_false_trans (s mid sub : string) :
  includes s sub = false -> includes mid sub = true -> includes s mid = false.
Proof.
  intros Hs Hmid. destruct (includes s mid) eqn:H; [| reflexivity].
  rewrite (includes_trans _ _ _ H Hmid) in Hs. discriminate.
Qed.

Lemma substring_occurs (s : string) :
  forall n m, exists pre post, s = (pre ++ String.substring n m s ++ post)%string.
Proof.
  induction s as [| c s IH]; intros n m.
  - exists EmptyString, EmptyString. destruct n, m; reflexivity.
  - destruct n as [| n].
    + destruct m as [| m]; simpl.
      * now exists EmptyString, (String c s).
      * destruct (IH 0 m) as (pre & post & H).
        destruct pre as [| d pre].
        -- exists EmptyString, post. simpl in *. now rewrite <- H.
        -- (* the piece starts at 0: take it from the front *)
           clear H. exists EmptyString.
           assert (Hfront : forall t k, exists post', t = (String.substring 0 k t ++ post')%string).
           { clear. induction t as [| x t IHt]; intros [| k]; simpl.
             - now exists EmptyString.
             - now exists EmptyString.
             - now exists (String x t).
             - destruct (IHt k) as (post' & H). exists post'. now rewrite <- H. }
           destruct (Hfront s m) as (post' & H). exists post'. simpl. now rewrite <- H.
    + destruct (IH n m) as (pre & post & H).
      exists (String c pre), post. simpl. now rewrite <- H.
Qed.

Lemma includes_substring (s : string) (n m : nat) :
  includes s (String.substring n m s) = true.
Proof. apply includes_iff, substring_occurs. Qed.

Lemma mapChars_app (f : ascii -> ascii) (a b : string) :
  mapChars f (a ++ b) = (mapChars f a ++ mapChars f b)%string.
Proof. induction a as [| c a IH]; simpl; [reflexivity | now rewrite IH]. Qed.


Lemma toLowerCase_app (a b : string) :
  toLowerCase (a ++ b) = (toLowerCase a ++ toLowerCase b)%string.
Proof. apply mapChars_app. Qed.

Lemma toLowerChar_idem (c : ascii) : toLowerChar (toLowerChar c) = toLowerChar c.
Proof.
  unfold toLowerChar at 1. now rewrite toLowerChar_not_upper.
Qed.

Lemma toLowerCase_idem (s : string) : toLowerCase (toLowerCase s) = toLowerCase s.
Proof.
  unfold toLowerCase. induction s as [| c s IH]; simpl; [reflexivity |].
  now rewrite toLowerChar_idem, IH.
Qed.

Lemma toLowerCase_orElse (o : option string) :
  toLowerCase (orElse o EmptyString) = orElse (option_map toLowerCase o) EmptyString.
Proof.
  destruct o as [s |]; simpl; [| reflexivity].
  destruct s; reflexivity.
Qed.

(** *** More on the scorer and the classifier *)

Set Warnings "-inexact-float".

(** X1. The confidence is never below the base 0.6 (there is no penalty),
    and it reaches 1 exactly when the domain, category and keyword boosts all
    apply; the date boost cannot be seen then. *)
Theorem calculateConfidence_base_and_top (result : RawResult) (category : string) :
  (0.6 <=? calculateConfidence result category)%float = true /\
  (calculateConfidence result category =? 1)%float =
    domainBoost (confidenceText result) &&
    categoryBoost (confidenceText result) category &&
    keywordBoost (confidenceText result).
Proof.
  unfold calculateConfidence.
  destruct (domainBoost _), (categoryBoost _ _), (keywordBoost _),
           (containsDatePattern _); vm_compute; split; reflexivity.
Qed.

Lemma existsb_includes (text : string) (words : list string) (w : string) :
  In w words -> includes text w = true ->
  existsb (fun k => includes text k) words = true.
Proof. intros Hin Hw. apply existsb_exists. now exists w. Qed.

(** X2. A result whose title, snippet or link mentions eventbrite.com or
    facebook.com/events earns the domain boost and, because both names
    contain the keyword "event", the keyword boost as well: its confidence is
    at least 0.9. *)
Theorem platform_mention_scores_high (result : RawResult) (category : string) :
  includes (confidenceText result) "eventbrite.com" = true \/
  includes (confidenceText result) "facebook.com/events" = true ->
  domainBoost (confidenceText result) = true /\
  keywordBoost (confidenceText result) = true /\
  (0.9 <=? calculateConfidence result category)%float = true.
Proof.
  intros Hmention.
  assert (Hdomain : domainBoost (confidenceText result) = true).
  { unfold domainBoost.
    destruct Hmention as [H | H];
      [apply (existsb_includes _ _ "eventbrite.com") |
       apply (existsb_includes _ _ "facebook.com/events")];
      try assumption; simpl; tauto. }
  assert (Hkeyword : keywordBoost (confidenceText result) = true).
  { unfold keywordBoost. apply (existsb_includes _ _ "event"); [simpl; tauto |].
    destruct Hmention as [H | H];
      (eapply includes_trans; [exact H | vm_compute; reflexivity]). }
  repeat split; try assumption.
  unfold calculateConfidence. rewrite Hdomain, Hkeyword.
  destruct (categoryBoost _ _), (containsDatePattern _); vm_compute; reflexivity.
Qed.

Lemma platform_mention_scores_high_witness :
  domainBoost (confidenceText Samples.jazz) = true /\
  keywordBoost (confidenceText Samples.jazz) = true /\
  (0.9 <=? calculateConfidence Samples.jazz "music")%float = true.
Proof.
  apply (platform_mention_scores_high Samples.jazz "music").
  left. vm_compute. reflexivity.
Defined.

Set Warnings "+inexact-float".

Lemma searchText_fields (result : RawResult) :
  searchText result =
  (orElse (option_map toLowerCase (title result)) EmptyString ++ " " ++
   orElse (option_map toLowerCase (snippet result)) EmptyString ++ " " ++
   orElse (option_map toLowerCase (link result)) EmptyString ++ " " ++
   orElse (option_map toLowerCase (question result)) EmptyString)%string.
Proof. unfold searchText. cbv zeta. now rewrite !toLowerCase_orElse. Qed.

Lemma confidenceText_fields (result : RawResult) :
  confidenceText result =
  (orElse (option_map toLowerCase (title result)) EmptyString ++ " " ++
   orElse (option_map toLowerCase (snippet result)) EmptyString ++ " " ++
   orElse (option_map toLowerCase (link result)) EmptyString)%string.
Proof.
  unfold confidenceText. rewrite !toLowerCase_app, !toLowerCase_orElse. reflexivity.
Qed.

Lemma searchText_extends_confidenceText (result : RawResult) :
  searchText result =
  (confidenceText result ++ " " ++
   orElse (option_map toLowerCase (question result)) EmptyString)%string.
Proof.
  rewrite searchText_fields, confidenceText_fields, !string_app_assoc. reflexivity.
Qed.

(** X3. Classification and score are case-insensitive: two results whose
    fields agree up to letter case are classified alike, and get the same
    confidence for categories that agree up to letter case. *)
Theorem classifier_and_scorer_ignore_case (r1 r2 : RawResult) (c1 c2 : string) :
  option_map toLowerCase (title r1) = option_map toLowerCase (title r2) ->
  option_map toLowerCase (snippet r1) = option_map toLowerCase (snippet r2) ->
  option_map toLowerCase (link r1) = option_map toLowerCase (link r2) ->
  option_map toLowerCase (question r1) = option_map toLowerCase (question r2) ->
  toLowerCase c1 = toLowerCase c2 ->
  isEventLike r1 = isEventLike r2 /\
  calculateConfidence r1 c1 = calculateConfidence r2 c2.
Proof.
  intros Ht Hs Hl Hq Hc.
  assert (Hsearch : searchText r1 = searchText r2)
    by (rewrite !searchText_fields, Ht, Hs, Hl, Hq; reflexivity).
  assert (Hconf : confidenceText r1 = confidenceText r2)
    by (rewrite !confidenceText_fields, Ht, Hs, Hl; reflexivity).
  split.
  - unfold isEventLike. now rewrite Hsearch.
  - unfold calculateConfidence, categoryBoost. now rewrite Hconf, Hc.
Qed.

Lemma classifier_and_scorer_ignore_case_witness :
  isEventLike Samples.jazz =
  isEventLike (mkRaw (Some "JAZZ FESTIVAL AT BLUE NOTE ON MARCH 15, 2025")
                     (Some "tickets available on EVENTBRITE.com")
                     (Some "HTTPS://eventbrite.com/JAZZ") None) /\
  calculateConfidence Samples.jazz "music" =
  calculateConfidence (mkRaw (Some "JAZZ FESTIVAL AT BLUE NOTE ON MARCH 15, 2025")
                             (Some "tickets available on EVENTBRITE.com")
                             (Some "HTTPS://eventbrite.com/JAZZ") None) "Music".
Proof.
  apply (classifier_and_scorer_ignore_case Samples.jazz
           (mkRaw (Some "JAZZ FESTIVAL AT BLUE NOTE ON MARCH 15, 2025")
                  (Some "tickets available on EVENTBRITE.com")
                  (Some "HTTPS://eventbrite.com/JAZZ") None) "music" "Music");
    vm_compute; reflexivity.
Defined.

Lemma core_keywords_are_keywords (keyword : string) :
  In keyword coreEventKeywords -> In keyword eventKeywords.
Proof. simpl. intuition. Qed.

(** X4. A keyword anywhere qualifies: a result is event-like as soon as one
    of the classifier's keywords occurs, in any letter case, in its title,
    snippet, link or question. *)
Theorem keyword_in_any_field_qualifies (result : RawResult) (keyword : string) :
  In keyword eventKeywords ->
  includes (toLowerCase (orElse (title result) EmptyString)) keyword = true \/
  includes (toLowerCase (orElse (snippet result) EmptyString)) keyword = true \/
  includes (toLowerCase (orElse (link result) EmptyString)) keyword = true \/
  includes (toLowerCase (orElse (question result) EmptyString)) keyword = true ->
  isEventLike result = true.
Proof.
  intros Hkw Hfield. apply isEventLike_iff. left. exists keyword. split; [assumption |].
  unfold searchText. cbv zeta.
  destruct Hfield as [H | [H | [H | H]]].
  - now apply includes_app_l.
  - apply includes_app_r, includes_app_r. now apply includes_app_l.
  - do 4 apply includes_app_r. now apply includes_app_l.
  - now do 6 apply includes_app_r.
Qed.

Lemma keyword_in_any_field_qualifies_witness :
  isEventLike (mkRaw None None (Some "https://www.MeetUp.com/sf-hikers") None) = true.
Proof.
  apply (keyword_in_any_field_qualifies
           (mkRaw None None (Some "https://www.MeetUp.com/sf-hikers") None) "meetup").
  - simpl. tauto.
  - right. right. left. vm_compute. reflexivity.
Defined.

(** X5. The scorer's boosts and the classifier agree on keywords: every
    result that earns the keyword boost, or mentions eventbrite.com,
    meetup.com or facebook.com/events in title, snippet or link, passes the
    classifier.  (The fourth boosted domain, lu.ma, is not a classifier
    keyword.) *)
Theorem keyword_boost_implies_event_like (result : RawResult) :
  keywordBoost (confidenceText result) = true \/
  includes (confidenceText result) "eventbrite.com" = true \/
  includes (confidenceText result) "meetup.com" = true \/
  includes (confidenceText result) "facebook.com/events" = true ->
  isEventLike result = true.
Proof.
  intros Hboost.
  assert (Hkw : exists keyword, In keyword eventKeywords /\
                                includes (confidenceText result) keyword = true).
  { destruct Hboost as [H | [H | [H | H]]].
    - unfold keywordBoost in H. apply existsb_exists in H.
      destruct H as (keyword & Hin & Hinc). exists keyword.
      split; [now apply core_keywords_are_keywords | assumption].
    - exists "eventbrite". split; [simpl; tauto |].
      eapply includes_trans; [exact H | vm_compute; reflexivity].
    - exists "meetup.com". split; [simpl; tauto | assumption].
    - exists "facebook.com/events". split; [simpl; tauto | assumption]. }
  destruct Hkw as (keyword & Hin & Hinc).
  apply isEventLike_iff. left. exists keyword. split; [assumption |].
  rewrite searchText_extends_confidenceText. now apply includes_app_l.
Qed.

Lemma keyword_boost_implies_event_like_witness :
  isEventLike Samples.jazz = true.
Proof.
  apply (keyword_boost_implies_event_like Samples.jazz).
  left. vm_compute. reflexivity.
Defined.

(** A link on lu.ma alone earns the domain boost without passing the
    classifier. *)
Lemma luma_boosted_not_event_like :
  domainBoost (confidenceText (mkRaw None None (Some "https://lu.ma/abc") None)) = true /\
  isEventLike (mkRaw None None (Some "https://lu.ma/abc") None) = false.
Proof. vm_compute. split; reflexivity. Qed.

(** X6. Inside the classifier the capitalised-place venue pattern is dead:
    the text is lower-cased before the venue patterns are applied, and
    [/\b(at|@)\s+[A-Z][a-zA-Z\s]+\b/] has no [i] flag, so it never matches
    there; the venue test of the classifier is the test of the venue-word
    and street-address patterns alone. *)
Theorem classifier_venue_test_is_two_patterns (result : RawResult) :
  test ContainsVenue.atPlace (searchText result) = false /\
  containsVenuePattern (searchText result) =
    test ContainsVenue.venueWord (searchText result) ||
    test ContainsVenue.streetAddress (searchText result).
Proof.
  assert (Hdead : test ContainsVenue.atPlace (searchText result) = false).
  { destruct (test ContainsVenue.atPlace (searchText result)) eqn:Htest; [| reflexivity].
    apply atPlace_needs_capital in Htest. destruct Htest as (ch & Hin & Hup).
    apply searchText_no_upper in Hin. congruence. }
  split; [exact Hdead |].
  unfold containsVenuePattern, ContainsVenue.venuePatterns. cbn [existsb].
  now rewrite Hdead, orb_false_r.
Qed.

(** *** More on the orchestrator and the normalizer *)

Lemma searchEvents_answered (host : Host) (apiKey : string) (options : SearchOptions)
    (data : SerperData) :
  Answers host apiKey options data ->
  searchEvents host apiKey options =
  Normal {| Envelope.success := true;
            Envelope.error := None;
            Envelope.events :=
              compact (transformFrom host (optCategory options) 0
                         (candidates data (effectiveLimit options)));
            Envelope.count :=
              List.length
                (compact (transformFrom host (optCategory options) 0
                            (candidates data (effectiveLimit options))));
            Envelope.processingTime := (laterTime host - startTime host)%Z;
            Envelope.source := "serper";
            Envelope.metadata :=
              Some {| totalOrganic := List.length (orEmpty (organic data));
                      relatedTerms :=
                        firstn 5 (map relatedTerm (orEmpty (relatedSearches data))) |} |}.
Proof.
  intros (response & Hfetch & Hok & Hjson & Herr).
  unfold searchEvents, searchEventsTry. cbv zeta.
  now rewrite Hfetch, Hok, Hjson, Herr.
Qed.

Lemma transformEvent_some (parse : DateParser) (now : Now) (result : RawResult)
    (category : string) (event : Event.t) :
  transformEvent parse now result category = Some event ->
  hasTitle result = true /\
  Event.title event = titleOf result /\
  Event.description event =
    orElse (Some (orElse (snippet result) EmptyString))
           "Event details available on the event page." /\
  Event.category event = category /\
  Event.venue event = Event.location event /\
  Event.startDate event =
    startDate (extractDateInfo parse now
                 (titleOf result ++ " " ++ orElse (snippet result) EmptyString)) /\
  Event.endDate event =
    endDate (extractDateInfo parse now
               (titleOf result ++ " " ++ orElse (snippet result) EmptyString)) /\
  Event.eventUrl event = link result /\
  Event.ticketUrl event =
    extractTicketUrl (link result) (orElse (snippet result) EmptyString) /\
  Event.source event = "serper_api" /\
  Event.confidence event = calculateConfidence result category /\
  Event.thumbnail event = None /\
  Event.id event =
    ("serper_" ++ toLowerCase (replaceAll nonAlnum (titleOf result) "_"))%string.
Proof.
  unfold transformEvent, hasTitle, titleOf.
  destruct (truthy (orElseOpt (title result) (question result))); simpl negb; cbv iota.
  - intros [= <-]. cbn. repeat split; reflexivity.
  - discriminate.
Qed.

Lemma truthy_nonempty (s : string) : truthy (Some s) = true -> s <> EmptyString.
Proof. unfold truthy. destruct (String.eqb_spec s EmptyString); [discriminate | auto]. Qed.

Lemma hasTitle_titleOf (result : RawResult) :
  hasTitle result = true -> titleOf result <> EmptyString.
Proof.
  unfold hasTitle, titleOf.
  destruct (orElseOpt (title result) (question result)) as [s |]; [| discriminate].
  apply truthy_nonempty.
Qed.

Lemma In_compact_transformFrom (host : Host) (category : string)
    (results : list RawResult) (event : Event.t) :
  forall n,
    In event (compact (transformFrom host category n results)) ->
    exists k result,
      In result results /\
      transformEvent (parseDate host) (clock host k) result category = Some event.
Proof.
  induction results as [| r results IH]; intros n; simpl; [intros [] |].
  destruct (transformEvent (parseDate host) (clock host n) r category) as [e |] eqn:He.
  - intros [<- | Hin].
    + exists n, r. split; [now left | assumption].
    + destruct (IH _ Hin) as (k & r' & Hr' & Hk). exists k, r'. split; [now right | assumption].
  - intros Hin. destruct (IH _ Hin) as (k & r' & Hr' & Hk).
    exists k, r'. split; [now right | assumption].
Qed.

Lemma In_firstn {A : Type} (l : list A) (a : A) : forall n, In a (firstn n l) -> In a l.
Proof.
  induction l as [| x l IH]; intros [| n]; simpl; try tauto.
  intros [-> | H]; [now left | right; eauto].
Qed.

Lemma In_candidates (data : SerperData) (limit : Z) (result : RawResult) :
  In result (candidates data limit) ->
  In result (orEmpty (organic data) ++ orEmpty (peopleAlsoAsk data)) /\
  isEventLike result = true.
Proof.
  unfold candidates, sliceTo. cbv zeta. intros Hin.
  apply In_firstn in Hin. unfold filterEventResults in Hin.
  now apply filter_In in Hin.
Qed.

Set Warnings "-inexact-float".

Lemma calculateConfidence_bounds (result : RawResult) (category : string) :
  (0.6 <=? calculateConfidence result category)%float = true /\
  (calculateConfidence result category <=? 1)%float = true.
Proof.
  unfold calculateConfidence.
  destruct (domainBoost _), (categoryBoost _ _), (keywordBoost _),
           (containsDatePattern _); vm_compute; split; reflexivity.
Qed.

(** X7. Every event of every envelope is well formed: it comes from an
    organic or "people also ask" result that passed the classifier; its title
    is that result's title (or question) and is not empty; its description is
    not empty; venue and location coincide, and so do start and end date; the
    category is the query's; the source is "serper_api"; there is no
    thumbnail; and the confidence lies between 0.6 and 1. *)
Theorem searchEvents_events_well_formed (host : Host) (apiKey : string)
    (options : SearchOptions) :
  exists envelope,
    searchEvents host apiKey options = Normal envelope /\
    Forall
      (fun event =>
         Event.title event <> EmptyString /\
         Event.description event <> EmptyString /\
         Event.location event = Event.venue event /\
         Event.endDate event = Event.startDate event /\
         Event.category event = optCategory options /\
         Event.source event = "serper_api" /\
         Event.thumbnail event = None /\
         (0.6 <=? Event.confidence event)%float = true /\
         (Event.confidence event <=? 1)%float = true /\
         exists data result,
           Answers host apiKey options data /\
           In result (orEmpty (organic data) ++ orEmpty (peopleAlsoAsk data)) /\
           isEventLike result = true /\
           Event.title event = titleOf result /\
           Event.eventUrl event = link result)
      (Envelope.events envelope).
Proof.
  destruct (fetch host (buildRequest apiKey options)) as [m | m | response] eqn:Hfetch.
  1, 2: eexists; split;
    [unfold searchEvents, searchEventsTry; cbv zeta; rewrite Hfetch; reflexivity
    | constructor].
  destruct (ok response) eqn:Hok.
  2: { eexists; split;
       [unfold searchEvents, searchEventsTry; cbv zeta; rewrite Hfetch, Hok; reflexivity
       | constructor]. }
  destruct (json response) as [m | data] eqn:Hjson.
  { eexists; split;
      [unfold searchEvents, searchEventsTry; cbv zeta; rewrite Hfetch, Hok, Hjson;
       reflexivity | constructor]. }
  destruct (truthy (dataError data)) eqn:Herr.
  { eexists; split;
      [unfold searchEvents, searchEventsTry; cbv zeta; rewrite Hfetch, Hok, Hjson, Herr;
       reflexivity | constructor]. }
  assert (Hans : Answers host apiKey options data) by (exists response; auto).
  eexists. split; [apply (searchEvents_answered _ _ _ _ Hans) |].
  cbn [Envelope.events]. apply Forall_forall. intros event Hin.
  apply In_compact_transformFrom in Hin. destruct Hin as (k & result & Hres & Hevent).
  apply In_candidates in Hres. destruct Hres as [Hres Hlike].
  apply transformEvent_some in Hevent.
  destruct Hevent as (Hhas & Htitle & Hdesc & Hcat & Hvenue & Hstart & Hend & Hurl & _
                      & Hsrc & Hconf & Hthumb & _).
  repeat split.
  - rewrite Htitle. now apply hasTitle_titleOf.
  - rewrite Hdesc. unfold orElse.
    destruct (snippet result) as [[| c s] |]; simpl; discriminate.
  - now rewrite Hvenue.
  - rewrite Hstart, Hend. apply extractDateInfo_single_day.
  - assumption.
  - assumption.
  - assumption.
  - rewrite Hconf. apply calculateConfidence_bounds.
  - rewrite Hconf. apply calculateConfidence_bounds.
  - exists data, result. auto.
Qed.

Set Warnings "+inexact-float".

Lemma titles_of_batch (host : Host) (category : string) (results : list RawResult) :
  forall n,
    map Event.title (compact (transformFrom host category n results)) =
    map titleOf (filter hasTitle results).
Proof.
  induction results as [| r results IH]; intros n; simpl; [reflexivity |].
  destruct (transformEvent (parseDate host) (clock host n) r category) as [e |] eqn:He.
  - apply transformEvent_some in He. destruct He as (Hhas & Htitle & _).
    rewrite Hhas. simpl. now rewrite Htitle, IH.
  - destruct (hasTitle r) eqn:Hhas; [| apply IH].
    unfold transformEvent, hasTitle in *. rewrite Hhas in He. discriminate.
Qed.

(** X8. Events keep the provider's order and take the slots of the first
    [limit] survivors only: when the provider answers, the titles of the
    events are, in order, the titles (or questions) of those among the first
    [limit] results passing the classifier that have one; [count] is their
    number, so a survivor without title and question uses up a slot that no
    later result fills. *)
Theorem searchEvents_titles_in_order (host : Host) (apiKey : string)
    (options : SearchOptions) (data : SerperData) :
  Answers host apiKey options data ->
  exists envelope,
    searchEvents host apiKey options = Normal envelope /\
    map Event.title (Envelope.events envelope) =
      map titleOf (filter hasTitle (sliceTo (survivors data) (effectiveLimit options))) /\
    Envelope.count envelope =
      List.length (filter hasTitle (sliceTo (survivors data) (effectiveLimit options))).
Proof.
  intros Hans. eexists. split; [apply (searchEvents_answered _ _ _ _ Hans) |].
  cbn [Envelope.events Envelope.count].
  pose proof (titles_of_batch host (optCategory options)
                (candidates data (effectiveLimit options)) 0) as Htitles.
  split; [exact Htitles |].
  apply (f_equal (@List.length string)) in Htitles.
  now rewrite !length_map in Htitles.
Qed.

Lemma answers_threeHits (limit : option Z) :
  Answers (Samples.hostAnswering (Samples.okResponse Samples.threeHits))
          "key" (Samples.musicInSF limit) Samples.threeHits.
Proof. eexists. repeat split. Qed.

Lemma searchEvents_titles_in_order_witness :
  exists envelope,
    searchEvents (Samples.hostAnswering (Samples.okResponse Samples.threeHits))
                 "key" (Samples.musicInSF (Some 2%Z)) = Normal envelope /\
    map Event.title (Envelope.events envelope) =
      map titleOf (filter hasTitle (sliceTo (survivors Samples.threeHits)
                     (effectiveLimit (Samples.musicInSF (Some 2%Z))))) /\
    Envelope.count envelope =
      List.length (filter hasTitle (sliceTo (survivors Samples.threeHits)
                     (effectiveLimit (Samples.musicInSF (Some 2%Z))))).
Proof.
  apply (searchEvents_titles_in_order
           (Samples.hostAnswering (Samples.okResponse Samples.threeHits))
           "key" (Samples.musicInSF (Some 2%Z)) Samples.threeHits).
  apply answers_threeHits.
Defined.

(** X9. An answer without survivors is a success, not a failure: when the
    provider answers and no organic or "people also ask" result passes the
    classifier, or the limit is 0, the envelope has [success = true], no
    [error], no events and [count = 0], whatever the related searches are. *)
Theorem searchEvents_no_survivor_is_success (host : Host) (apiKey : string)
    (options : SearchOptions) (data : SerperData) :
  Answers host apiKey options data ->
  survivors data = [] \/ effectiveLimit options = 0%Z ->
  exists envelope,
    searchEvents host apiKey options = Normal envelope /\
    Envelope.success envelope = true /\
    Envelope.error envelope = None /\
    Envelope.events envelope = [] /\
    Envelope.count envelope = 0.
Proof.
  intros Hans Hnone. eexists. split; [apply (searchEvents_answered _ _ _ _ Hans) |].
  cbn [Envelope.success Envelope.error Envelope.events Envelope.count].
  assert (Hcand : candidates data (effectiveLimit options) = []).
  { unfold candidates, sliceTo. cbv zeta. fold (survivors data).
    destruct Hnone as [-> | ->]; [apply firstn_nil |].
    replace (Z.to_nat _) with 0; [reflexivity |].
    change (0 <? 0)%Z with false. cbv iota. lia. }
  rewrite Hcand. repeat split.
Qed.

Lemma searchEvents_no_survivor_is_success_witness :
  exists envelope,
    searchEvents (Samples.hostAnswering (Samples.okResponse Samples.threeHits))
                 "key" (Samples.musicInSF (Some 0%Z)) = Normal envelope /\
    Envelope.success envelope = true /\
    Envelope.error envelope = None /\
    Envelope.events envelope = [] /\
    Envelope.count envelope = 0.
Proof.
  apply (searchEvents_no_survivor_is_success
           (Samples.hostAnswering (Samples.okResponse Samples.threeHits))
           "key" (Samples.musicInSF (Some 0%Z)) Samples.threeHits).
  - apply answers_threeHits.
  - right. reflexivity.
Defined.



(** *** More on the extractors *)

Lemma execFrom_matched (p : Pattern) (s : string) (from : nat) (m : MatchResult) :
  execFrom p s from = Some m -> matched m = slice s (index m) (lastIndex m).
Proof.
  unfold execFrom. cbv zeta.
  destruct (_ <? from); [discriminate |].
  destruct (scanFrom _ _ _ _ _ _) as [[i y] |]; [| discriminate].
  now intros [= <-].
Qed.

Lemma matchAllFrom_includes (p : Pattern) (s : string) (u : string) :
  forall fuel from, In u (matchAllFrom fuel p s from) -> includes s u = true.
Proof.
  induction fuel as [| fuel IH]; intros from; simpl; [intros [] |].
  destruct (execFrom p s from) as [m |] eqn:Hm; [| intros []].
  intros [<- | Hin].
  - rewrite (execFrom_matched _ _ _ _ Hm). apply includes_substring.
  - eapply IH. eassumption.
Qed.

Lemma firstTicketUrl_some (urls : list string) (url : string) :
  firstTicketUrl urls = Some url -> In url urls /\ mentionsTicketDomain url = true.
Proof.
  induction urls as [| v urls IH]; simpl; [discriminate |].
  destruct (mentionsTicketDomain v) eqn:Hv.
  - intros [= <-]. split; [now left | assumption].
  - intros H. destruct (IH H). split; [now right | assumption].
Qed.

Lemma extractTicketUrl_some (eventUrl : option string) (snippet url : string) :
  extractTicketUrl eventUrl snippet = Some url ->
  mentionsTicketDomain url = true /\
  (eventUrl = Some url \/
   (In url (matchAll urlPattern snippet) /\ includes snippet url = true)).
Proof.
  unfold extractTicketUrl. rewrite eventUrl_test.
  destruct (truthy eventUrl && mentionsTicketDomain (spliced eventUrl)) eqn:Htest.
  - intros ->. apply andb_true_iff in Htest. simpl in Htest. tauto.
  - cbv zeta. intros H. apply firstTicketUrl_some in H. destruct H as [Hin Hm].
    split; [assumption |]. right. split; [assumption |].
    unfold matchAll in Hin. eapply matchAllFrom_includes. eassumption.
Qed.

(** X11. A ticket URL always names a ticketing platform and is never made
    up: whatever [extractTicketUrl] returns contains one of the four listed
    domain names, and it is either the event URL itself or a URL that occurs
    verbatim in the snippet. *)
Theorem extractTicketUrl_sound (eventUrl : option string) (snippet url : string) :
  extractTicketUrl eventUrl snippet = Some url ->
  (exists domain, In domain ticketDomains /\ includes url domain = true) /\
  (eventUrl = Some url \/ includes snippet url = true).
Proof.
  intros H. apply extractTicketUrl_some in H. destruct H as [Hm Hfrom]. split.
  - unfold mentionsTicketDomain in Hm. apply existsb_exists in Hm. exact Hm.
  - tauto.
Qed.

Lemma extractTicketUrl_sound_witness :
  (exists domain, In domain ticketDomains /\
                  includes "https://www.ticketmaster.com/e/7" domain = true) /\
  (Some "https://example.org/gig" = Some "https://www.ticketmaster.com/e/7" \/
   includes "Book: http://blog.example.org/x or https://www.ticketmaster.com/e/7 today"
            "https://www.ticketmaster.com/e/7" = true).
Proof.
  apply (extractTicketUrl_sound (Some "https://example.org/gig")
           "Book: http://blog.example.org/x or https://www.ticketmaster.com/e/7 today"
           "https://www.ticketmaster.com/e/7").
  vm_compute. reflexivity.
Defined.

(** X12. No mention, no ticket URL: when neither the event URL nor the
    snippet contains any of the listed domain names, [extractTicketUrl]
    returns none. *)
Theorem extractTicketUrl_none_without_mention (eventUrl : option string)
    (snippet : string) :
  mentionsTicketDomain (spliced eventUrl) = false ->
  mentionsTicketDomain snippet = false ->
  extractTicketUrl eventUrl snippet = None.
Proof.
  intros Hurl Hsnippet.
  destruct (extractTicketUrl eventUrl snippet) as [url |] eqn:H; [| reflexivity].
  apply extractTicketUrl_some in H. destruct H as [Hm Hfrom].
  destruct Hfrom as [-> | [_ Hinc]].
  - simpl in Hurl. congruence.
  - unfold mentionsTicketDomain in *.
    apply existsb_exists in Hm. destruct Hm as (domain & Hd & Hdom).
    assert (Hs : existsb (fun d => includes snippet d) ticketDomains = true).
    { apply existsb_exists. exists domain. split; [assumption |].
      eapply includes_trans; eassumption. }
    congruence.
Qed.

Lemma extractTicketUrl_none_without_mention_witness :
  extractTicketUrl (Some "https://example.org/gig")
                   "More at https://example.org/tickets and http://venue.example" = None.
Proof.
  apply (extractTicketUrl_none_without_mention (Some "https://example.org/gig")
           "More at https://example.org/tickets and http://venue.example");
    vm_compute; reflexivity.
Defined.

Lemma extractLoop_now_or_parsed (parse : DateParser) (now : Now) (text : string)
    (patterns : list Pattern) (acc : DateSpan) :
  extractLoop parse now patterns text acc = acc \/
  exists p m str iso,
    In p patterns /\ exec p text = Some m /\ dateStr now p m = Some str /\
    parse str = Some iso /\
    extractLoop parse now patterns text acc = mkSpan iso iso.
Proof.
  induction patterns as [| p patterns IH]; simpl; [now left |].
  assert (Hrest :
            extractLoop parse now patterns text acc = acc \/
            exists p' m str iso,
              (p = p' \/ In p' patterns) /\ exec p' text = Some m /\
              dateStr now p' m = Some str /\ parse str = Some iso /\
              extractLoop parse now patterns text acc = mkSpan iso iso).
  { destruct IH as [IH | (p' & m & str & iso & Hin & H)]; [now left | right].
    exists p', m, str, iso. tauto. }
  destruct (exec p text) as [m |] eqn:Hm; [| exact Hrest].
  destruct (dateStr now p m) as [str |] eqn:Hstr; [| exact Hrest].
  destruct (parse str) as [iso |] eqn:Hiso; [| exact Hrest].
  right. exists p, m, str, iso. tauto.
Qed.

(** X13. The date span is a single instant, and it is either the extraction
    time or a date the parser produced from a string built out of a pattern
    match in the text; when the parser accepts nothing, the span is the
    extraction time. *)
Theorem extractDateInfo_now_or_parsed (parse : DateParser) (now : Now) (text : string) :
  endDate (extractDateInfo parse now text) = startDate (extractDateInfo parse now text) /\
  (extractDateInfo parse now text = mkSpan (nowISO now) (nowISO now) \/
   exists p m str iso,
     In p ExtractDate.datePatterns /\ exec p text = Some m /\
     dateStr now p m = Some str /\ parse str = Some iso /\
     extractDateInfo parse now text = mkSpan iso iso) /\
  ((forall str, parse str = None) ->
   extractDateInfo parse now text = mkSpan (nowISO now) (nowISO now)).
Proof.
  split; [apply extractDateInfo_single_day |]. split.
  - unfold extractDateInfo. cbv zeta. apply extractLoop_now_or_parsed.
  - intros Hnone. apply extractDateInfo_fallback.
    intros q _ m str _ _. apply Hnone.
Qed.

Lemma extractDateInfo_now_or_parsed_witness :
  extractDateInfo (fun _ => None) Samples.newYear "Open house on June 7 at noon" =
  mkSpan (nowISO Samples.newYear) (nowISO Samples.newYear).
Proof.
  apply (proj2 (proj2 (extractDateInfo_now_or_parsed (fun _ => None) Samples.newYear
                         "Open house on June 7 at noon"))).
  reflexivity.
Defined.

(** X14. The month-name pattern comes first and fills in the year: when the
    text holds a month name followed by a day, the string handed to the
    parser is "<month> <day>, <year>" with the four-digit year of the text
    if there is one and the current year otherwise; if the parser accepts it,
    that date is the answer and the other patterns are not consulted. *)
Theorem extractDateInfo_month_name_first (parse : DateParser) (now : Now)
    (text : string) (m : MatchResult) (iso : string) :
  exec ExtractDate.monthDayYear text = Some m ->
  parse (spliced (group m 1) ++ " " ++ spliced (group m 2) ++ ", " ++
         orElse (group m 3) (ofN (nowFullYear now)))%string = Some iso ->
  extractDateInfo parse now text = mkSpan iso iso.
Proof.
  intros Hm Hiso.
  apply (extractDateInfo_first_valid parse now text []
           [ExtractDate.slashed; ExtractDate.ordinal] ExtractDate.monthDayYear m
           (spliced (group m 1) ++ " " ++ spliced (group m 2) ++ ", " ++
            orElse (group m 3) (ofN (nowFullYear now)))%string iso);
    try assumption.
  - reflexivity.
  - intros q [].
  - apply dateStr_monthDayYear.
Qed.

Lemma extractDateInfo_month_name_first_witness :
  extractDateInfo Samples.echoParser Samples.newYear "Open house on June 7 at noon" =
  mkSpan "parsed:June 7, 2026" "parsed:June 7, 2026".
Proof.
  apply (extractDateInfo_month_name_first Samples.echoParser Samples.newYear
           "Open house on June 7 at noon"
           {| index := 14; lastIndex := 21; matched := "June 7 ";
              groupTexts := [Some "June"; Some "7"; None] |}).
  - vm_compute. reflexivity.
  - vm_compute. reflexivity.
Defined.

(** *** The identifier is a slug of the title *)



Lemma slice_cons (s : string) (ch : ascii) :
  forall k j,
    nth_error (list_ascii_of_string s) k = Some ch -> k < j ->
    slice s k j = String ch (slice s (S k) j).
Proof.
  unfold slice. induction s as [| c s IH]; intros k j Hk Hlt.
  - destruct k; discriminate.
  - destruct k as [| k]; simpl in Hk.
    + injection Hk as ->. destruct j as [| j]; [lia |].
      rewrite Nat.sub_0_r. simpl. now rewrite Nat.sub_0_r.
    + destruct j as [| j]; [lia |]. simpl. apply IH; [assumption | lia].
Qed.











(** *** The venue is never blank *)

Lemma letter_not_blank (c : ascii) : isLetter c = true -> isWhiteSpace c = false.
Proof. destruct c as [[] [] [] [] [] [] [] []]; vm_compute; congruence. Qed.

Lemma capital_matches_letter (c : ascii) :
  setHas [CaRange "A" "Z"] c || setHas [CaRange "A" "Z"] (toUpperChar c)
  || setHas [CaRange "A" "Z"] (toLowerChar c) = isLetter c.
Proof. destruct c as [[] [] [] [] [] [] [] []]; vm_compute; reflexivity. Qed.

Section VenueCapture.

Variable input : list ascii.

Lemma capital_seq (rest : Regex) (x : MatchState) (c : Continuation) (z : MatchState) :
  compile input true (RSeq (RClass false [CaRange "A" "Z"]) rest) x c = Some z ->
  exists ch y,
    nth_error input (endIndex x) = Some ch /\ isLetter ch = true /\
    c y = Some z /\ endIndex x < endIndex y /\ endIndex y <= List.length input /\
    List.length (captures y) = List.length (captures x).
Proof.
  cbn [compile]. unfold charMatcher at 1.
  destruct (nth_error input (endIndex x)) as [ch |] eqn:Hch; [| discriminate].
  unfold setMatches. rewrite capital_matches_letter. cbn [xorb].
  destruct (isLetter ch) eqn:Hletter; [| discriminate].
  intros Hz. destruct (compile_forward input true rest _ _ _ Hz) as (y & Hy & Hr).
  assert (endIndex x < List.length input) by (apply nth_error_Some; congruence).
  destruct Hr as (Hle & Hin & Hlen). cbn [endIndex captures] in *.
  exists ch, y. repeat split; auto; lia.
Qed.

Lemma name_group_last (rest : Regex) (x z : MatchState) :
  0 < List.length (captures x) ->
  compile input true (RGroup 1 (RSeq (RClass false [CaRange "A" "Z"]) rest)) x
          (fun y => Some y) = Some z ->
  CapturedName input z.
Proof.
  intros Hcap Hz. cbn [compile] in Hz. fold (compile input true) in Hz.
  apply (capital_seq rest x) in Hz.
  destruct Hz as (ch & y & Hch & Hletter & [= <-] & Hlt & Hle & Hlen).
  exists (endIndex x), (endIndex y), ch.
  unfold setCapture. cbn [captures].
  rewrite setNth_hit by (simpl; lia). auto.
Qed.

Lemma name_group_then_boundary (rest : Regex) (x z : MatchState) :
  0 < List.length (captures x) ->
  compile input true
          (RSeq (RGroup 1 (RSeq (RClass false [CaRange "A" "Z"]) rest)) RWordBoundary) x
          (fun y => Some y) = Some z ->
  CapturedName input z.
Proof.
  intros Hcap Hz. cbn [compile] in Hz. fold (compile input true) in Hz.
  apply (capital_seq rest x) in Hz.
  destruct Hz as (ch & y & Hch & Hletter & Hy & Hlt & Hle & Hlen).
  destruct (xorb _ _); [| discriminate]. injection Hy as <-.
  exists (endIndex x), (endIndex y), ch.
  unfold setCapture. cbn [captures].
  rewrite setNth_hit by (simpl; lia). auto.
Qed.

End VenueCapture.

Lemma exec_name (p : Pattern) (text : string) (m : MatchResult) :
  (forall x z,
      0 < List.length (captures x) ->
      compile (list_ascii_of_string text) (ignoreCase p) (body p) x (fun y => Some y)
      = Some z ->
      CapturedName (list_ascii_of_string text) z) ->
  0 < List.length (groups (body p)) ->
  exec p text = Some m ->
  exists ch rest, group m 1 = Some (String ch rest) /\ isLetter ch = true.
Proof.
  intros Hcap Hgroups. unfold exec, execFrom. cbv zeta.
  destruct (_ <? 0) eqn:Hlt; [apply Nat.ltb_lt in Hlt; lia |].
  destruct (scanFrom _ _ _ _ _ _) as [[i y] |] eqn:Hscan; [| discriminate].
  intros [= <-].
  apply scanFrom_inv in Hscan. simpl in Hscan.
  apply Hcap in Hscan; [| simpl; rewrite repeat_length; assumption].
  destruct Hscan as (b & e & ch & Hnth & Hbe & He & Hch & Hletter).
  exists ch, (slice text (S b) e). split; [| assumption].
  unfold group. cbn [groupTexts]. change (1 - 1) with 0.
  rewrite nth_error_map, Hnth. cbn [option_map fst snd].
  now rewrite (slice_cons text ch b e Hch Hbe).
Qed.

Lemma venue_patterns_name (p : Pattern) (text : string) (m : MatchResult) :
  In p ExtractVenue.venuePatterns ->
  exec p text = Some m ->
  exists ch rest, group m 1 = Some (String ch rest) /\ isLetter ch = true.
Proof.
  intros Hin. apply exec_name.
  - destruct Hin as [<- | [<- | [<- | []]]]; intros x z Hx Hz.
    + change (body ExtractVenue.atVenue) with
        (RSeq RWordBoundary
           (RSeq (RNonCap (alts [lit "at"; lit "@"]))
              (RSeq (plus RSpace)
                 (RSeq (RGroup 1
                          (RSeq (RClass false [CaRange "A" "Z"])
                             (RSeq (plus (RClass false venueChars))
                                (RNonCap (words (ExtractVenue.venueNouns ++
                                                 ExtractVenue.moreVenueNouns))))))
                    RWordBoundary)))) in Hz.
      change (ignoreCase ExtractVenue.atVenue) with true in Hz.
      apply seq_forward in Hz. destruct Hz as (y1 & Hz & (_ & _ & H1)).
      apply seq_forward in Hz. destruct Hz as (y2 & Hz & (_ & _ & H2)).
      apply seq_forward in Hz. destruct Hz as (y3 & Hz & (_ & _ & H3)).
      eapply name_group_then_boundary; [| exact Hz]. lia.
    + change (body ExtractVenue.bareVenue) with
        (RSeq RWordBoundary
           (RSeq (RGroup 1
                    (RSeq (RClass false [CaRange "A" "Z"])
                       (RSeq (plus (RClass false venueChars))
                          (RNonCap (words ExtractVenue.venueNouns)))))
              RWordBoundary)) in Hz.
      change (ignoreCase ExtractVenue.bareVenue) with true in Hz.
      apply seq_forward in Hz. destruct Hz as (y1 & Hz & (_ & _ & H1)).
      eapply name_group_then_boundary; [| exact Hz]. lia.
    + change (body ExtractVenue.labelled) with
        (RSeq RWordBoundary
           (RSeq (RNonCap (words ["venue"; "location"]))
              (RSeq (RChar ":")
                 (RSeq (star RSpace)
                    (RGroup 1
                       (RSeq (RClass false [CaRange "A" "Z"])
                          (plus (RClass false venueChars)))))))) in Hz.
      change (ignoreCase ExtractVenue.labelled) with true in Hz.
      apply seq_forward in Hz. destruct Hz as (y1 & Hz & (_ & _ & H1)).
      apply seq_forward in Hz. destruct Hz as (y2 & Hz & (_ & _ & H2)).
      apply seq_forward in Hz. destruct Hz as (y3 & Hz & (_ & _ & H3)).
      apply seq_forward in Hz. destruct Hz as (y4 & Hz & (_ & _ & H4)).
      eapply name_group_last; [| exact Hz]. lia.
  - destruct Hin as [<- | [<- | [<- | []]]]; vm_compute; lia.
Qed.

Lemma trimEnd_first (c : ascii) (rest : string) :
  isWhiteSpace c = false -> exists rest', trimEnd (String c rest) = String c rest'.
Proof.
  intros Hc. cbn [trimEnd]. rewrite Hc.
  destruct (trimEnd rest); eexists; reflexivity.
Qed.

Lemma trimEnd_idem (s : string) : trimEnd (trimEnd s) = trimEnd s.
Proof.
  induction s as [| c s IH]; [reflexivity |]. cbn [trimEnd].
  destruct (trimEnd s) as [| d t] eqn:Ht.
  - destruct (isWhiteSpace c) eqn:Hc; [reflexivity |]. cbn [trimEnd]. now rewrite Hc.
  - cbn [trimEnd] in *. rewrite IH. reflexivity.
Qed.

Lemma trimStart_noLeadingBlank (s : string) : noLeadingBlank (trimStart s).
Proof.
  induction s as [| c s IH]; simpl; [exact I |].
  destruct (isWhiteSpace c) eqn:Hc; [exact IH | exact Hc].
Qed.

Lemma trimStart_fixed (s : string) : noLeadingBlank s -> trimStart s = s.
Proof. destruct s as [| c s]; simpl; [reflexivity | now intros ->]. Qed.

Lemma trimEnd_noLeadingBlank (s : string) : noLeadingBlank s -> noLeadingBlank (trimEnd s).
Proof.
  destruct s as [| c s]; [intros _; exact I |].
  intros Hc. simpl in Hc. destruct (trimEnd_first c s Hc) as (rest' & ->). exact Hc.
Qed.

(** [trim] leaves nothing more to trim. *)
Lemma trim_idem (s : string) : trim (trim s) = trim s.
Proof.
  unfold trim.
  rewrite (trimStart_fixed (trimEnd (trimStart s))).
  - apply trimEnd_idem.
  - apply trimEnd_noLeadingBlank, trimStart_noLeadingBlank.
Qed.

Lemma trim_name (ch : ascii) (rest : string) :
  isLetter ch = true -> exists rest', trim (String ch rest) = String ch rest'.
Proof.
  intros Hletter. apply letter_not_blank in Hletter.
  unfold trim. cbn [trimStart]. rewrite Hletter. now apply trimEnd_first.
Qed.

Lemma venueLoop_shape (text : string) (patterns : list Pattern) :
  (forall p, In p patterns -> In p ExtractVenue.venuePatterns) ->
  venueLoop patterns text = sentinelVenue \/
  exists ch rest,
    isLetter ch = true /\ venueLoop patterns text = trim (String ch rest).
Proof.
  induction patterns as [| p patterns IH]; intros Hsub; simpl; [now left |].
  assert (Hrest : forall q, In q patterns -> In q ExtractVenue.venuePatterns)
    by (intros q Hq; apply Hsub; now right).
  destruct (exec p text) as [m |] eqn:Hm; [| now apply IH].
  destruct (venue_patterns_name p text m (Hsub p (or_introl eq_refl)) Hm)
    as (ch & rest & Hg & Hletter).
  rewrite Hg. cbn [truthy String.eqb negb spliced]. right. now exists ch, rest.
Qed.

(** X16. The venue is never blank: [extractVenue] returns either the
    sentinel or a trimmed capture, and in both cases a string that begins
    with a letter (so it is not empty) and has no blank at either end. *)
Theorem extractVenue_never_blank (text : string) :
  (exists ch rest, extractVenue text = String ch rest /\ isLetter ch = true) /\
  trim (extractVenue text) = extractVenue text.
Proof.
  unfold extractVenue.
  destruct (venueLoop_shape text ExtractVenue.venuePatterns (fun p H => H))
    as [-> | (ch & rest & Hletter & ->)].
  - split; [| vm_compute; reflexivity].
    exists "S"%char, "ee Event Page". split; reflexivity.
  - split; [| apply trim_idem].
    destruct (trim_name ch rest Hletter) as (rest' & ->). now exists ch, rest'.
Qed.

(* ------------------------------------------------------------------------- *)
(** ** Properties of the health probe and of the frontend's health checker *)

(** *** getHealthStatus *)

Section Probe.
Import JSString HealthProbe.


End Probe.

(** *** The frontend's health checker *)

Section Checker.
Import JSString ApiHealthChecker.

Lemma notify_quiet (w : World) (l : list Callback) (s : Status.t) :
  quiet w ->
  notifyListeners w l s = (map (fun callback => (callback, s)) l, false).
Proof.
  intros Hq. induction l as [| cb l IH]; simpl; [reflexivity |].
  now rewrite Hq, IH.
Qed.


Lemma reachable_iff (w : World) :
  Backend.reachable (checkBackendHealth w) = true <->
  exists status statusText data,
    getHealth w = FetchResolves true status statusText (JsonValue data).
Proof.
  unfold checkBackendHealth.
  destruct (getHealth w) as [thrown | [] st txt [thrown | data]]; simpl;
    split; try discriminate; try (intros (? & ? & ? & [=])).
  - intros _. now exists st, txt, data.
  - reflexivity.
Qed.

(** X18. The events endpoint is probed only behind a reachable backend: the
    backend counts as reachable exactly when the health endpoint answers with
    a 2xx status and a JSON body; then both URLs are fetched, health first;
    otherwise only the health URL is fetched, the API is reported as
    "Backend not reachable" without being called, and the check is not
    healthy. *)
Theorem performHealthCheck_gates_api_test (w : World) (c : Checker) :
  (Backend.reachable (checkBackendHealth w) = true <->
   exists status statusText data,
     getHealth w = FetchResolves true status statusText (JsonValue data)) /\
  (Backend.reachable (checkBackendHealth w) = true ->
   requested (performHealthCheck w c) = [healthUrl c; eventsUrl c]) /\
  (Backend.reachable (checkBackendHealth w) = false ->
   requested (performHealthCheck w c) = [healthUrl c] /\
   Status.api (checkedStatus w (status c)) =
     Api.mk false false 0 (Some "Backend not reachable") /\
   Status.isHealthy (status (after (performHealthCheck w c))) = false).
Proof.
  split; [apply reachable_iff |].
  assert (Hreq : requested (performHealthCheck w c) = urlsFetched w c).
  { unfold performHealthCheck. cbv zeta.
    destruct (notifyListeners w (listeners c) _) as [calls []];
      [destruct (notifyListeners w (listeners c) _) as [again []] |]; reflexivity. }
  rewrite Hreq. unfold urlsFetched. split.
  - now intros ->.
  - intros Hr. rewrite Hr. repeat split.
    + unfold checkedStatus. cbv zeta. now rewrite Hr.
    + unfold performHealthCheck. cbv zeta.
      destruct (notifyListeners w (listeners c) _) as [calls []];
        [destruct (notifyListeners w (listeners c) _) as [again []] |];
        cbn; try reflexivity.
      unfold checkedStatus. cbv zeta. now rewrite Hr.
Qed.

Lemma performHealthCheck_gates_api_test_witness :
  requested
    (performHealthCheck
       (mkWorld (FetchThrows (ErrorObject "Failed to fetch"))
                (FetchResolves true 200 "OK" (JsonValue (mkEventsData true (Some 3) None)))
                12 15 "2026-01-01T00:00:00.000Z" "2026-01-01T00:00:01.000Z"
                (fun _ _ => false))
       (initial "2026-01-01T00:00:00.000Z")) =
    [healthUrl (initial "2026-01-01T00:00:00.000Z")] /\
  Status.api
    (checkedStatus
       (mkWorld (FetchThrows (ErrorObject "Failed to fetch"))
                (FetchResolves true 200 "OK" (JsonValue (mkEventsData true (Some 3) None)))
                12 15 "2026-01-01T00:00:00.000Z" "2026-01-01T00:00:01.000Z"
                (fun _ _ => false))
       (status (initial "2026-01-01T00:00:00.000Z"))) =
    Api.mk false false 0 (Some "Backend not reachable") /\
  Status.isHealthy
    (status (after
       (performHealthCheck
          (mkWorld (FetchThrows (ErrorObject "Failed to fetch"))
                   (FetchResolves true 200 "OK"
                      (JsonValue (mkEventsData true (Some 3) None)))
                   12 15 "2026-01-01T00:00:00.000Z" "2026-01-01T00:00:01.000Z"
                   (fun _ _ => false))
          (initial "2026-01-01T00:00:00.000Z")))) = false.
Proof.
  apply (proj2 (proj2 (performHealthCheck_gates_api_test
           (mkWorld (FetchThrows (ErrorObject "Failed to fetch"))
                    (FetchResolves true 200 "OK"
                       (JsonValue (mkEventsData true (Some 3) None)))
                    12 15 "2026-01-01T00:00:00.000Z" "2026-01-01T00:00:01.000Z"
                    (fun _ _ => false))
           (initial "2026-01-01T00:00:00.000Z")))).
  reflexivity.
Defined.

Lemma testApiFunction_coherent (w : World) :
  Api.eventsFetching (testApiFunction w) = Api.functional (testApiFunction w) /\
  (Api.functional (testApiFunction w) = true -> Api.error (testApiFunction w) = None) /\
  (Api.functional (testApiFunction w) = false ->
   Api.sampleEventCount (testApiFunction w) = 0 /\ Api.error (testApiFunction w) <> None).
Proof.
  unfold testApiFunction.
  destruct (getEvents w) as [thrown | [] st txt [thrown | [[] [n |] err]]]; cbn;
    repeat split; try discriminate; auto.
Qed.

Lemma checkBackendHealth_error (w : World) :
  Backend.reachable (checkBackendHealth w) = false ->
  Backend.error (checkBackendHealth w) <> None.
Proof.
  unfold checkBackendHealth.
  destruct (getHealth w) as [thrown | [] st txt [thrown | data]]; cbn; discriminate.
Qed.

Lemma checkedStatus_coherent (w : World) (previous : Status.t) :
  Coherent (checkedStatus w previous).
Proof.
  unfold Coherent, checkedStatus. cbv zeta. cbn.
  destruct (Backend.reachable (checkBackendHealth w)) eqn:Hr; cbn.
  - destruct (testApiFunction_coherent w) as (He & Hok & Hbad).
    destruct (Api.functional (testApiFunction w)) eqn:Hf; repeat split; auto;
      try discriminate; try lia; try (now apply Hbad).
  - repeat split; auto; try discriminate; try lia.
    now apply checkBackendHealth_error.
Qed.

Lemma failedStatus_coherent (w : World) (previous : Status.t) :
  Coherent (failedStatus w previous).
Proof. unfold Coherent, failedStatus. cbn. repeat split; auto; try discriminate; lia. Qed.

Lemma after_status (w : World) (c : Checker) :
  status (after (performHealthCheck w c)) = checkedStatus w (status c) \/
  status (after (performHealthCheck w c)) = failedStatus w (checkedStatus w (status c)).
Proof.
  unfold performHealthCheck. cbv zeta.
  destruct (notifyListeners w (listeners c) _) as [calls []];
    [destruct (notifyListeners w (listeners c) _) as [again []] |]; cbn; auto.
Qed.


(** X19. After every health check the status is coherent, whether or not a
    subscriber threw: [isHealthy] is "backend reachable and API functional";
    [eventsFetching] equals [functional]; a functional API has no error and
    a non-functional one has a zero event count and an error text; an
    unreachable backend has an error text and a non-functional API; a
    healthy status has a failure count of 0 and an unhealthy one of at least
    1. *)
Theorem performHealthCheck_status_coherent (w : World) (c : Checker) :
  Coherent (status (after (performHealthCheck w c))) /\
  Coherent (getCurrentStatus (after (forceCheck w c))) /\
  (forall s, settled (performHealthCheck w c) = Resolved s ->
             s = status (after (performHealthCheck w c))).
Proof.
  assert (Hc : Coherent (status (after (performHealthCheck w c)))).
  { destruct (after_status w c) as [-> | ->];
      [apply checkedStatus_coherent | apply failedStatus_coherent]. }
  split; [exact Hc | split; [exact Hc |]].
  unfold performHealthCheck. cbv zeta.
  destruct (notifyListeners w (listeners c) _) as [calls []];
    [destruct (notifyListeners w (listeners c) _) as [again []] |]; cbn;
    intros s [=]; auto.
Qed.

Lemma performHealthCheck_quiet (w : World) (c : Checker) :
  quiet w ->
  performHealthCheck w c =
  mkOutcome (withStatus c (checkedStatus w (status c))) (urlsFetched w c)
            (map (fun callback => (callback, checkedStatus w (status c))) (listeners c))
            (Resolved (checkedStatus w (status c))).
Proof.
  intros Hq. unfold performHealthCheck. cbv zeta. now rewrite notify_quiet.
Qed.


Lemma runChecks_app (ws1 ws2 : list World) (c : Checker) :
  runChecks (ws1 ++ ws2) c = runChecks ws2 (runChecks ws1 c).
Proof. revert c. induction ws1 as [| w ws1 IH]; intros c; simpl; auto. Qed.

Lemma failing_check_counts (w : World) (c : Checker) :
  quiet w -> healthyWorld w = false ->
  Status.consecutiveFailures (status (after (performHealthCheck w c))) =
  Status.consecutiveFailures (status c) + 1.
Proof.
  intros Hq Hw. rewrite (performHealthCheck_quiet w c Hq). cbn.
  unfold checkedStatus, healthyWorld in *. cbv zeta. cbn.
  destruct (Backend.reachable (checkBackendHealth w)); cbn in *;
    [now rewrite Hw | reflexivity].
Qed.

(** X21. The failure counter counts the unhealthy checks since the last
    healthy one: with subscribers that do not throw, a run of checks that all
    find the backend unreachable or the API not functional adds its length to
    the counter, and one healthy check puts it back to 0. *)
Theorem consecutiveFailures_counts_run (ws : list World) (w : World) (c : Checker) :
  (forall v, In v ws -> quiet v /\ healthyWorld v = false) ->
  quiet w -> healthyWorld w = true ->
  Status.consecutiveFailures (status (runChecks ws c)) =
    Status.consecutiveFailures (status c) + List.length ws /\
  Status.consecutiveFailures (status (runChecks (ws ++ [w]) c)) = 0 /\
  Status.isHealthy (status (runChecks (ws ++ [w]) c)) = true.
Proof.
  intros Hws Hq Hw.
  assert (Hrun : forall c', Status.consecutiveFailures (status (runChecks ws c')) =
                            Status.consecutiveFailures (status c') + List.length ws).
  { clear Hq Hw w c. induction ws as [| v ws IH]; intros c'; simpl; [lia |].
    rewrite IH by (intros u Hu; apply Hws; now right).
    destruct (Hws v (or_introl eq_refl)) as [Hq Hv].
    rewrite (failing_check_counts v c' Hq Hv). lia. }
  split; [apply Hrun |].
  rewrite runChecks_app. simpl. rewrite (performHealthCheck_quiet w _ Hq). cbn.
  unfold checkedStatus, healthyWorld in *. cbv zeta. cbn.
  apply andb_true_iff in Hw. destruct Hw as [Hr Hf]. now rewrite Hr, Hf.
Qed.


Lemma consecutiveFailures_counts_run_witness :
  Status.consecutiveFailures
    (status (runChecks [worldDown; worldDown] threeSubscribers)) =
    Status.consecutiveFailures (status threeSubscribers) + 2 /\
  Status.consecutiveFailures
    (status (runChecks ([worldDown; worldDown] ++ [worldUp]) threeSubscribers)) = 0 /\
  Status.isHealthy
    (status (runChecks ([worldDown; worldDown] ++ [worldUp]) threeSubscribers)) = true.
Proof.
  apply (consecutiveFailures_counts_run [worldDown; worldDown] worldUp threeSubscribers).
  - intros v [<- | [<- | []]]; (split; [intros callback s; reflexivity | reflexivity]).
  - intros callback s. reflexivity.
  - reflexivity.
Defined.






(** X23. A backend that answers 200 but does not report "healthy" still
    counts as reachable: its error text says what it reported, the events
    endpoint is probed all the same, and the check is healthy exactly when
    the API is functional, so a healthy status can carry a backend error. *)
Theorem degraded_backend_still_reachable (w : World) (c : Checker)
    (status0 : N) (statusText : string) (reported : option string) :
  getHealth w = FetchResolves true status0 statusText (JsonValue (mkHealthData reported)) ->
  reported <> Some "healthy" ->
  let checked := checkedStatus w (status c) in
  Backend.reachable (Status.backend checked) = true /\
  Backend.error (Status.backend checked) =
    Some ("Backend reports status: " ++ SerperClient.spliced reported)%string /\
  Backend.responseTime (Status.backend checked) = elapsedAtResponse w /\
  Status.api checked = testApiFunction w /\
  Status.isHealthy checked = Api.functional (testApiFunction w) /\
  requested (performHealthCheck w c) = [healthUrl c; eventsUrl c].
Proof.
  intros Hhealth Hreported. cbv zeta.
  assert (Hb : checkBackendHealth w =
               Backend.mk true (elapsedAtResponse w)
                 (Some ("Backend reports status: " ++ SerperClient.spliced reported)%string)).
  { unfold checkBackendHealth. rewrite Hhealth. cbn [reportedStatus].
    destruct reported as [r |]; [| reflexivity].
    destruct (String.eqb_spec r "healthy") as [-> | _]; [congruence | reflexivity]. }
  assert (Hreq : requested (performHealthCheck w c) = urlsFetched w c).
  { unfold performHealthCheck. cbv zeta.
    destruct (notifyListeners w (listeners c) _) as [calls []];
      [destruct (notifyListeners w (listeners c) _) as [again []] |]; reflexivity. }
  rewrite Hreq. unfold checkedStatus, urlsFetched. cbv zeta. rewrite Hb. cbn.
  repeat split.
Qed.

Lemma degraded_backend_still_reachable_witness :
  let checked := checkedStatus worldDegraded (status threeSubscribers) in
  Backend.reachable (Status.backend checked) = true /\
  Backend.error (Status.backend checked) =
    Some ("Backend reports status: " ++ SerperClient.spliced (Some "unhealthy"))%string /\
  Backend.responseTime (Status.backend checked) = elapsedAtResponse worldDegraded /\
  Status.api checked = testApiFunction worldDegraded /\
  Status.isHealthy checked = Api.functional (testApiFunction worldDegraded) /\
  requested (performHealthCheck worldDegraded threeSubscribers) =
    [healthUrl threeSubscribers; eventsUrl threeSubscribers].
Proof.
  apply (degraded_backend_still_reachable worldDegraded threeSubscribers 200 "OK"
           (Some "unhealthy")).
  - reflexivity.
  - discriminate.
Defined.







Lemma call_keeps_timer (op : MonitorCall) (m : Monitor) :
  TimerKept m -> TimerKept (call op m).
Proof.
  intros Hm. destruct op as [ms |]; simpl.
  - unfold startMonitoring.
    destruct Hm as [(h & p & Hh & Hlive & Hlt) | (Hnone & Hlive)].
    + rewrite Hh. unfold clearInterval, setInterval. rewrite Hlive. cbn.
      rewrite Nat.eqb_refl. cbn. left. eexists _, _. repeat split. cbn. lia.
    + rewrite Hnone. unfold setInterval. rewrite Hlive. cbn.
      left. eexists _, _. repeat split. cbn. lia.
  - unfold stopMonitoring.
    destruct Hm as [(h & p & Hh & Hlive & Hlt) | (Hnone & Hlive)].
    + rewrite Hh. unfold clearInterval. rewrite Hlive. cbn.
      rewrite Nat.eqb_refl. cbn. right. auto.
    + rewrite Hnone. right. auto.
Qed.

Lemma calls_keep_timer (ops : list MonitorCall) :
  forall m, TimerKept m -> TimerKept (calls ops m).
Proof.
  unfold calls. induction ops as [| op ops IH]; intros m Hm; simpl; [assumption |].
  apply IH, call_keeps_timer, Hm.
Qed.

Lemma calls_count_checks (ops : list MonitorCall) :
  forall m, checksStarted (calls ops m) = checksStarted m + starts ops.
Proof.
  unfold calls, starts. induction ops as [| op ops IH]; intros m; simpl; [lia |].
  rewrite IH. destruct op as [ms |]; simpl.
  - unfold startMonitoring. destruct (checkInterval (checker m)); cbn; lia.
  - unfold stopMonitoring. destruct (checkInterval (checker m)); cbn; lia.
Qed.

(** X25. Monitoring never leaves two interval timers running: after any
    sequence of [startMonitoring] and [stopMonitoring] calls on a fresh page,
    the live interval timers are exactly the one whose handle the instance
    remembers (none if it remembers none); every [startMonitoring] starts one
    immediate check; and [stopMonitoring] leaves no timer and can be repeated
    without effect. *)
Theorem monitoring_keeps_one_timer (ops : list MonitorCall) (constructedAt : string) :
  let m := calls ops (freshMonitor constructedAt) in
  map fst (live (timers m)) =
    match checkInterval (checker m) with
    | Some handle => [handle]
    | None => []
    end /\
  checksStarted m = starts ops /\
  live (timers (stopMonitoring m)) = [] /\
  checkInterval (checker (stopMonitoring m)) = None /\
  stopMonitoring (stopMonitoring m) = stopMonitoring m.
Proof.
  cbv zeta.
  assert (Hkept : TimerKept (calls ops (freshMonitor constructedAt))).
  { apply calls_keep_timer. right. split; reflexivity. }
  pose proof (call_keeps_timer Stop _ Hkept) as Hstop. simpl in Hstop.
  split; [| split; [| split; [| split]]].
  - destruct Hkept as [(h & p & -> & -> & _) | (-> & ->)]; reflexivity.
  - now rewrite calls_count_checks.
  - unfold stopMonitoring in *.
    destruct Hkept as [(h & p & Hh & Hlive & _) | (Hnone & Hlive)].
    + rewrite Hh. unfold clearInterval. rewrite Hlive. cbn. now rewrite Nat.eqb_refl.
    + now rewrite Hnone.
  - unfold stopMonitoring.
    destruct (checkInterval (checker (calls ops (freshMonitor constructedAt)))) eqn:Hh;
      [reflexivity | assumption].
  - unfold stopMonitoring at 1.
    destruct (checkInterval (checker (stopMonitoring _))) eqn:Hh; [| reflexivity].
    exfalso. unfold stopMonitoring in Hh.
    destruct (checkInterval (checker (calls ops (freshMonitor constructedAt)))) eqn:Hh';
      cbn in Hh; congruence.
Qed.

End Checker.
